(** * Metadata agent: updater lifecycle, polling scheduler and log sink

    A shallow embedding of [src/logging.h] (class [LogStream]) and of
    [src/updater.cc] (classes [MetadataUpdater] and
    [PollingMetadataUpdater]), and the properties of the design document
    proved or refuted on it.

    The updater is a two-thread program: the caller's thread runs [Start],
    [NotifyStop] and the destructor, the reporter thread runs
    [PollForMetadata].  The two share the [std::timed_mutex timer_] and the
    thread handle, and nothing else that is written.  The embedding is an
    interleaving semantics: every function of the caller is one atomic
    transition, and [PollForMetadata] is cut into one transition per call
    that leaves the function: the call and the return of the query
    callback, each store callback, each reading of the clock, each return
    of [try_lock_until].  A schedule is a list of events; [run] executes
    it.

    What the sources do not contain is a parameter of the model: the
    payload type, [format::Substitute], [format::str], the inherited
    [ValidateDynamicConfiguration], and the chrono arithmetic on the
    period, whose type [time::seconds] is declared in [time.h].  A reading
    of the clock is a whole number of ticks; the clock need not be steady.

    The file has two parts: the definitions, then the facts. *)

From Stdlib Require Import ZArith List String Ascii Bool Lia DecimalString
  Permutation.
Import ListNotations.

Local Open Scope Z_scope.
Local Open Scope list_scope.

(** ** Values shared by the two classes *)

(** [Logger::Severity] of [logging.h]. *)
Inductive Severity := DEBUG | INFO | WARNING | ERROR.

(** Modelled from the spec: [Configuration] ([configuration.h] is not among
    the sources) is read-only and exposes a verbosity flag. *)
Record Configuration := { VerboseLogging : bool }.

(** Modelled from the spec: [ConfigurationValidationError] (declared in
    [updater.h], not among the sources) carries a message. *)
Record ConfigurationValidationError := { what : string }.

(** How a call of the caller's thread, or a step of the reporter thread,
    ends.  [Blocks]: the thread cannot proceed in this state ([lock] on a
    locked mutex, [join] on a running thread).  [Aborts]: the C++ standard
    gives the call no behaviour here ([unlock] on an unlocked mutex,
    assignment to a joinable [std::thread], which calls [std::terminate]). *)
Inductive outcome (W : Type) : Type :=
| Returns (w : W)
| Throws (e : ConfigurationValidationError) (w : W)
| Blocks
| Aborts.

Arguments Returns {W} w.
Arguments Throws {W} e w.
Arguments Blocks {W}.
Arguments Aborts {W}.

(** ** [LogStream]: the log sink (logging.h:25-42) *)

Module Logging.

Local Open Scope nat_scope.
Local Open Scope string_scope.

(** A [std::ostream], as far as the two insertions of [write] depend on
    it: the characters that have reached its device ([target]) and those
    still in its stream buffer ([buffer]); whether [good()] is false
    ([failed]: one of [failbit], [badbit], [eofbit] is set); the field
    width, the fill character and whether [adjustfield] is [left]; and how
    many more characters the stream buffer takes ([room], [None] when it
    takes any number).

    The exception mask is the default one: a failure sets state bits and
    throws nothing.  Ties are left out: the sentry flushes a tied stream,
    which changes nothing of what has been inserted into that stream, and
    the facts below say no more than that of streams other than the
    target. *)
Record ostream := mkStream {
  target : string;
  buffer : string;
  failed : bool;
  width : nat;
  fill : ascii;
  left_adjust : bool;
  room : option nat
}.

(** A stream as constructed on a device that takes every character: good,
    width 0, filled with spaces, adjusted to the right. *)
Definition fresh_stream : ostream :=
  mkStream "" "" false 0 " "%char false None.

(** Everything inserted into the stream so far. *)
Definition output (o : ostream) : string := target o ++ buffer o.

Fixpoint padding (n : nat) (c : ascii) : string :=
  match n with
  | 0 => ""
  | S k => String c (padding k c)
  end.

(** The field a formatted insertion of [s] writes: [s] padded to the
    width. *)
Definition field (s : string) (o : ostream) : string :=
  let pad := padding (width o - String.length s) (fill o) in
  if left_adjust o then s ++ pad else pad ++ s.

(** [rdbuf()->sputn(s)] and what the inserters make of its result: the
    stream buffer takes the characters it has room for, and [badbit] is set
    when that is not all of them. *)
Definition sputn (s : string) (o : ostream) : ostream :=
  match room o with
  | None =>
      mkStream (target o) (buffer o ++ s) (failed o) (width o) (fill o)
               (left_adjust o) None
  | Some n =>
      if Nat.leb (String.length s) n then
        mkStream (target o) (buffer o ++ s) (failed o) (width o) (fill o)
                 (left_adjust o) (Some (n - String.length s))
      else
        mkStream (target o) (buffer o ++ substring 0 n s) true (width o)
                 (fill o) (left_adjust o) (Some 0)
  end.

(** [o << s] for a [std::string], a formatted output function.  Its sentry
    fails on a stream that is not good, and then nothing is inserted;
    otherwise the field is written and the width is reset. *)
Definition insert (s : string) (o : ostream) : ostream :=
  if failed o then o
  else
    let o' := sputn (field s o) o in
    mkStream (target o') (buffer o') (failed o') 0 (fill o') (left_adjust o')
             (room o').

(** [o.put(c)], an unformatted output function: no padding, and nothing on a
    stream that is not good. *)
Definition unformatted (s : string) (o : ostream) : ostream :=
  if failed o then o else sputn s o.

(** [o.flush()], an unformatted output function too: on a good stream the
    buffer is handed to the device. *)
Definition flush (o : ostream) : ostream :=
  if failed o then o
  else
    mkStream (target o ++ buffer o) "" false (width o) (fill o)
             (left_adjust o) (room o).

Definition newline : string := String (ascii_of_nat 10) "".

(** [o << std::endl]: [put] of a newline, then [flush]. *)
Definition endl (o : ostream) : ostream := flush (unformatted newline o).

(** The insertions of [write] append the line and the newline as they are
    to a stream that is good, has no field width set and takes every
    character. *)
Definition healthy (o : ostream) : Prop :=
  failed o = false /\ width o = 0 /\ room o = None.

(** The streams of the process, by address. *)
Definition streams := nat -> ostream.

Definition assign (a : nat) (o : ostream) (m : streams) : streams :=
  fun b => if Nat.eqb b a then o else m b.

(** A [LogStream] and the streams it may point to.  [mutex_] is true while
    some [lock_guard] holds it. *)
Record LogStream := mkLogStream {
  mutex_ : bool;
  out_ : nat;
  memory : streams
}.

(** The constructor (logging.h:27-28). *)
Definition construct (out : nat) (m : streams) : LogStream :=
  mkLogStream false out m.

(** logging.h:30-33: no lock is taken. *)
Definition set_stream (out : nat) (s : LogStream) : LogStream :=
  let m := assign (out_ s) (flush (memory s (out_ s))) (memory s) in
  mkLogStream (mutex_ s) out m.

(** [std::lock_guard<std::mutex> lock(mutex_)] and its destructor. *)
Definition lock (s : LogStream) : outcome LogStream :=
  if mutex_ s then Blocks else Returns (mkLogStream true (out_ s) (memory s)).

Definition unlock (s : LogStream) : LogStream :=
  mkLogStream false (out_ s) (memory s).

(** logging.h:36 is two insertions into the stream [out_] points to: the
    line, then [std::endl]. *)
Definition put (text : string) (s : LogStream) : LogStream :=
  mkLogStream (mutex_ s) (out_ s)
    (assign (out_ s) (insert text (memory s (out_ s))) (memory s)).

Definition put_endl (s : LogStream) : LogStream :=
  mkLogStream (mutex_ s) (out_ s)
    (assign (out_ s) (endl (memory s (out_ s))) (memory s)).

Definition put_line (line : string) (s : LogStream) : LogStream :=
  put_endl (put line s).

(** logging.h:34-37. *)
Definition write (line : string) (s : LogStream) : outcome LogStream :=
  match lock s with
  | Returns held => Returns (unlock (put_line line held))
  | other => other
  end.

(** One [write] after the other, as long as each returns. *)
Fixpoint write_all (lines : list string) (s : LogStream) : outcome LogStream :=
  match lines with
  | [] => Returns s
  | line :: rest =>
      match write line s with
      | Returns s' => write_all rest s'
      | other => other
      end
  end.

(** *** Several threads inside [write] *)

(** Where a thread stands inside [write(line)]. *)
Inductive writer :=
| Entering (line : string)
    (* line 35, before the lock is taken *)
| Holding (line : string)
    (* line 36, the lock taken, nothing inserted yet *)
| Ending (line : string)
    (* line 36, the line inserted, [std::endl] not yet *)
| Leaving.
    (* line 37, before the lock is released *)

(** The sink with its callers: [writers t] is where thread [t] stands, [None]
    when it is not inside [write].  No thread calls [set_stream] meanwhile:
    that function is not synchronised with [write]. *)
Record Shared := mkShared {
  sink : LogStream;
  writers : nat -> option writer
}.

Definition move (t : nat) (to : option writer) (s : LogStream) (c : Shared)
    : Shared :=
  mkShared s (fun u => if Nat.eqb u t then to else writers c u).

Inductive action :=
| Call (thread : nat) (line : string)
    (* the thread calls [write(line)] *)
| Step (thread : nat).
    (* the thread runs the next of its four steps *)

Definition act (c : Shared) (a : action) : outcome Shared :=
  match a with
  | Call t line =>
      match writers c t with
      | None => Returns (move t (Some (Entering line)) (sink c) c)
      | Some _ => Blocks
      end
  | Step t =>
      match writers c t with
      | None => Blocks
      | Some (Entering line) =>
          match lock (sink c) with
          | Returns held => Returns (move t (Some (Holding line)) held c)
          | _ => Blocks
          end
      | Some (Holding line) =>
          Returns (move t (Some (Ending line)) (put line (sink c)) c)
      | Some (Ending line) =>
          Returns (move t (Some Leaving) (put_endl (sink c)) c)
      | Some Leaving =>
          Returns (move t None (unlock (sink c)) c)
      end
  end.

Fixpoint perform (schedule : list action) (c : Shared) : option Shared :=
  match schedule with
  | [] => Some c
  | a :: rest =>
      match act c a with
      | Returns c' => perform rest c'
      | _ => None
      end
  end.

(** Whole lines, each with its newline. *)
Fixpoint text (lines : list string) : string :=
  match lines with
  | [] => ""
  | line :: rest => line ++ newline ++ text rest
  end.

(** The thread is between taking the lock and releasing it. *)
Definition inside (w : option writer) : bool :=
  match w with
  | Some (Holding _) | Some (Ending _) | Some Leaving => true
  | _ => false
  end.

(** What the thread has inserted of a line that is not whole yet. *)
Definition pending (w : option writer) : string :=
  match w with
  | Some (Ending line) => line
  | _ => ""
  end.

(** The target holds [base], then whole lines, then what the one thread
    inside has inserted so far; the mutex is held exactly when a thread is
    inside. *)
Definition whole_lines (out : nat) (base : string) (c : Shared) : Prop :=
  out_ (sink c) = out /\
  exists lines,
    (mutex_ (sink c) = false /\
     (forall u, inside (writers c u) = false) /\
     output (memory (sink c) out) = base ++ text lines) \/
    (mutex_ (sink c) = true /\
     exists t,
       inside (writers c t) = true /\
       (forall u, u <> t -> inside (writers c u) = false) /\
       output (memory (sink c) out) =
       base ++ text lines ++ pending (writers c t)).

(** *** Sequences of calls by one thread *)

Inductive command :=
| Write (line : string)
| SetStream (out : nat).

Definition execute (c : command) (s : LogStream) : outcome LogStream :=
  match c with
  | Write line => write line s
  | SetStream out => Returns (set_stream out s)
  end.

Fixpoint execute_all (cs : list command) (s : LogStream)
    : outcome LogStream :=
  match cs with
  | [] => Returns s
  | c :: rest =>
      match execute c s with
      | Returns s' => execute_all rest s'
      | other => other
      end
  end.

(** The lines that [cs] writes while the sink points to the stream [a],
    when it points to [target] at the start; and where it points at the
    end. *)
Fixpoint written (a target : nat) (cs : list command) : list string :=
  match cs with
  | [] => []
  | Write line :: rest =>
      if Nat.eqb a target then line :: written a target rest
      else written a target rest
  | SetStream out :: rest => written a out rest
  end.

Fixpoint final_target (target : nat) (cs : list command) : nat :=
  match cs with
  | [] => target
  | Write _ :: rest => final_target target rest
  | SetStream out :: rest => final_target out rest
  end.

(** *** Which lines several threads have written *)

(** The lines of the calls of a schedule, in the order called. *)
Fixpoint called (schedule : list action) : list string :=
  match schedule with
  | [] => []
  | Call _ line :: rest => line :: called rest
  | Step _ :: rest => called rest
  end.

(** The line a thread has called [write] with and not yet completed. *)
Definition unfinished (w : option writer) : list string :=
  match w with
  | Some (Entering line) | Some (Holding line) | Some (Ending line) => [line]
  | _ => []
  end.

Definition in_flight (c : Shared) (threads : list nat) : list string :=
  flat_map (fun t => unfinished (writers c t)) threads.

(** The lines called so far are, in some order, the whole lines [lines] of
    the target and the lines still in flight; [threads] are the threads that
    have called. *)
Definition accounted (out : nat) (base : string) (so_far : list string)
    (c : Shared) : Prop :=
  exists threads lines,
    NoDup threads /\
    (forall t, ~ In t threads -> writers c t = None) /\
    Permutation (lines ++ in_flight c threads)%list so_far /\
    out_ (sink c) = out /\
    ((mutex_ (sink c) = false /\
      (forall u, inside (writers c u) = false) /\
      output (memory (sink c) out) = base ++ text lines) \/
     (mutex_ (sink c) = true /\
      exists t,
        inside (writers c t) = true /\
        (forall u, u <> t -> inside (writers c u) = false) /\
        output (memory (sink c) out) =
        base ++ text lines ++ pending (writers c t))).

End Logging.

(** ** [MetadataUpdater]: the lifecycle with its hooks (updater.cc:27-46) *)

Module MetadataUpdater.

(** The virtual functions a concrete updater supplies, with the two
    facilities of the base class that [Start] uses: the updater's [name_]
    and the [LOG] macro.  [W] is the state of the whole system, the updater
    object included.  The three [const] hooks cannot change it. *)
Class Hooks (W : Type) : Type := {
  name : W -> string;
  LOG : Severity -> string -> W -> W;
  ValidateStaticConfiguration : W -> option ConfigurationValidationError;
  ShouldStartUpdater : W -> bool;
  ValidateDynamicConfiguration : W -> option ConfigurationValidationError;
  StartUpdater : W -> outcome W;
  NotifyStopUpdater : W -> outcome W
}.

(** updater.cc:33-42. *)
Definition Start {W : Type} {H : Hooks W} (w : W) : outcome W :=
  match ValidateStaticConfiguration w with
  | Some e => Throws e w
  | None =>
      if ShouldStartUpdater w then
        match ValidateDynamicConfiguration w with
        | Some e => Throws e w
        | None => StartUpdater w
        end
      else Returns (LOG INFO ("Not starting " ++ name w)%string w)
  end.

(** updater.cc:44-46. *)
Definition NotifyStop {W : Type} {H : Hooks W} (w : W) : outcome W :=
  NotifyStopUpdater w.

End MetadataUpdater.

(** ** [PollingMetadataUpdater] (updater.cc:48-126) *)

Module PollingMetadataUpdater.

(** [std::timed_mutex], used as the cancellation token: [Locked] is the
    spec's Active, [Unlocked] its Released.  Ownership is not tracked: the
    code locks on the caller's thread, unlocks on whichever thread calls
    [NotifyStop], and re-locks on the reporter thread. *)
Inductive timed_mutex := Unlocked | Locked.

(** Stand-ins for the parameters of the section below, used only to run the
    model on concrete inputs. *)

(** Modelled from the spec: template substitution ([format::Substitute] is
    not among the sources).  Every [{{key}}] of the template is replaced by
    the value of [key]. *)
Fixpoint replace (pattern value s : string) (skip : nat) : string :=
  match s with
  | EmptyString => EmptyString
  | String c rest =>
      match skip with
      | S k => replace pattern value rest k
      | O =>
          if String.prefix pattern s
          then (value
                ++ replace pattern value rest (String.length pattern - 1))%string
          else String c (replace pattern value rest 0)
      end
  end.

Definition format_Substitute (template : string)
    (params : list (string * string)) : string :=
  fold_left (fun t kv => replace ("{{" ++ fst kv ++ "}}")%string (snd kv) t 0)
            params template.

(** Modelled from the spec: the value as text ([format::str] is not among
    the sources), here in decimal. *)
Definition format_str (z : Z) : string := NilZero.string_of_int (Z.to_int z).

Definition always_valid (c : Configuration)
    : option ConfigurationValidationError := None.

(** Chrono arithmetic in [double].  The constructor takes the period as a
    [double] (updater.cc:50-53), so [time::seconds] counts in floating
    point, and so do the sum of line 105 and the comparison of line 110,
    whose common type is a [double] count of the clock's ticks.

    [binary64 z] is the binary64 number nearest to the whole number [z],
    ties to even: the conversion of an integer count to [double], and the
    rounding of a sum or product of whole numbers.  Overflow is left out:
    counts stay far below 2^1024. *)
Definition binary64 (z : Z) : Z :=
  let m := Z.abs z in
  let e := Z.log2 m - 52 in
  if e <=? 0 then z
  else
    let ulp := 2 ^ e in
    let q := m / ulp in
    let r := m mod ulp in
    let q' := if 2 * r <? ulp then q
              else if ulp <? 2 * r then q + 1
              else if Z.even q then q else q + 1 in
    Z.sgn z * (q' * ulp).

(** [start + period_] and [now < wakeup] with [time::seconds] taken as
    [std::chrono::duration<double>], on a clock that ticks in nanoseconds
    and for a period of whole seconds: the reading and the period are
    converted to a [double] count of nanoseconds, then added; the reading is
    converted, then compared. *)
Definition double_plus (start period : Z) : Z :=
  binary64 (binary64 start + binary64 (period * 1000000000)).

Definition double_less (now wakeup : Z) : bool := binary64 now <? wakeup.

Section Polling.

(** The payload type is opaque ([ResourceMetadata], declared outside the
    sources). *)
Variable ResourceMetadata : Type.

(** [format::Substitute] and [format::str] of [format.h], which is not among
    the sources: taken as parameters. *)
Variable Substitute : string -> list (string * string) -> string.
Variable str : Z -> string.

(** How the log stream prints a count of seconds (updater.cc:115). *)
Variable show_seconds : Z -> string.

(** Chrono arithmetic on the period ([time::seconds] is declared in [time.h],
    which is not among the sources): [chrono_plus start period] is
    [start + period_] of lines 105 and 119, a deadline on the clock's scale,
    and [chrono_less now wakeup] is [now < wakeup] of line 110.  The period
    is constructed from a [double] (updater.cc:50-53), so neither needs to
    be exact. *)
Variable chrono_plus : Z -> Z -> Z.
Variable chrono_less : Z -> Z -> bool.

(** [PollingMetadataUpdater] does not override
    [ValidateDynamicConfiguration]; the inherited body is in [updater.h],
    which is not among the sources: taken as a parameter. *)
Variable inherited_ValidateDynamicConfiguration :
  Configuration -> option ConfigurationValidationError.

(** What the reporter thread has called so far, oldest first: the query
    callback, with the clock's value when it was called and the vector it
    returned, and the two store callbacks.

    Modelled from the spec: [UpdateResourceCallback] and
    [UpdateMetadataCallback] (defined in [updater.h], not among the
    sources) hand the value to the store's resource-update and
    metadata-update entry points; the store is an external collaborator, so
    what it is handed is recorded and nothing more. *)
Inductive call :=
| CallQuery (at_time : Z) (result : list ResourceMetadata)
| CallUpdateResource (r : ResourceMetadata)
| CallUpdateMetadata (r : ResourceMetadata).

(** Where the reporter thread stands in [PollForMetadata], with the locals
    that are live there. *)
Inductive reporter :=
| Querying
    (* line 95, about to call [query_metadata_()] *)
| InQuery (called : Z)
    (* line 95, inside [query_metadata_()], entered when the clock read
       [called] *)
| Iterating (items : list ResourceMetadata)
    (* line 96, loop head; [items] are the elements not yet visited *)
| Consuming (result : ResourceMetadata) (rest : list ResourceMetadata)
    (* between lines 97 and 98 *)
| Waiting (start wakeup : Z)
    (* line 107, inside [timer_.try_lock_until(wakeup)]; [done] is true *)
| Woken (start wakeup : Z)
    (* line 108, [try_lock_until] returned false *)
| Finished.
    (* the thread function has returned; the handle is still joinable *)

(** The system: the object's members, the clock, and what the collaborators
    have seen.  [period_] is the count of the period, a whole number here;
    [now] is the reading of [high_resolution_clock], a whole number of its
    ticks.  [reporter_thread_] is [None] when the handle is not joinable. *)
Record World := mkWorld {
  config_ : Configuration;
  name_ : string;
  period_ : Z;
  timer_ : timed_mutex;
  reporter_thread_ : option reporter;
  now : Z;
  calls : list call;
  log : list (Severity * string)
}.

Definition set_timer (m : timed_mutex) (w : World) : World :=
  mkWorld (config_ w) (name_ w) (period_ w) m (reporter_thread_ w)
          (now w) (calls w) (log w).

Definition set_thread (t : option reporter) (w : World) : World :=
  mkWorld (config_ w) (name_ w) (period_ w) (timer_ w) t
          (now w) (calls w) (log w).

Definition set_now (t : Z) (w : World) : World :=
  mkWorld (config_ w) (name_ w) (period_ w) (timer_ w) (reporter_thread_ w)
          t (calls w) (log w).

Definition record (c : call) (w : World) : World :=
  mkWorld (config_ w) (name_ w) (period_ w) (timer_ w) (reporter_thread_ w)
          (now w) (calls w ++ [c]) (log w).

(** [LOG(SEVERITY) << ...].  Modelled from the spec: the [Logger] built by
    the macro ([logging.cc] is not among the sources) writes its message
    once through the process-wide sink; here the severity and the message
    are recorded. *)
Definition LOG (s : Severity) (line : string) (w : World) : World :=
  mkWorld (config_ w) (name_ w) (period_ w) (timer_ w) (reporter_thread_ w)
          (now w) (calls w) (log w ++ [(s, line)]).

(** [if (config().VerboseLogging()) { LOG(INFO) << ...; }] *)
Definition verbose (line : string) (w : World) : World :=
  if VerboseLogging (config_ w) then LOG INFO line w else w.

(** The constructor (updater.cc:48-56): [timer_()] is unlocked and
    [reporter_thread_()] is not a thread. *)
Definition construct (config : Configuration) (name : string) (period_s : Z)
    (clock : Z) : World :=
  mkWorld config name period_s Unlocked None clock [] [].

(** updater.cc:64-71. *)
Definition ValidateStaticConfiguration (w : World)
    : option ConfigurationValidationError :=
  if period_ w <? 0 then
    Some {| what := Substitute "Polling period {{period}}s cannot be negative"
                               [("period"%string, str (period_ w))] |}
  else None.

(** updater.cc:73-75. *)
Definition ShouldStartUpdater (w : World) : bool := 0 <? period_ w.

(** updater.cc:77-83. *)
Definition StartUpdater (w : World) : outcome World :=
  match timer_ w with
  | Locked => Blocks
  | Unlocked =>
      let w := set_timer Locked w in
      let w := verbose ("Locked timer for " ++ name_ w)%string w in
      match reporter_thread_ w with
      | Some _ => Aborts
      | None => Returns (set_thread (Some Querying) w)
      end
  end.

(** updater.cc:85-90. *)
Definition NotifyStopUpdater (w : World) : outcome World :=
  match timer_ w with
  | Unlocked => Aborts
  | Locked =>
      let w := set_timer Unlocked w in
      Returns (verbose ("Unlocked timer for " ++ name_ w)%string w)
  end.

#[export] Instance hooks : MetadataUpdater.Hooks World := {
  MetadataUpdater.name := name_;
  MetadataUpdater.LOG := LOG;
  MetadataUpdater.ValidateStaticConfiguration := ValidateStaticConfiguration;
  MetadataUpdater.ShouldStartUpdater := ShouldStartUpdater;
  MetadataUpdater.ValidateDynamicConfiguration :=
    fun w => inherited_ValidateDynamicConfiguration (config_ w);
  MetadataUpdater.StartUpdater := StartUpdater;
  MetadataUpdater.NotifyStopUpdater := NotifyStopUpdater
}.

(** The destructor (updater.cc:58-62): [join] returns once the thread
    function has returned, and leaves the handle not joinable. *)
Definition Destructor (w : World) : outcome World :=
  match reporter_thread_ w with
  | None => Returns w
  | Some Finished => Returns (set_thread None w)
  | Some _ => Blocks
  end.

(** One transition of [PollForMetadata] (updater.cc:92-126) from the control
    point [pc].  [answer] is what [query_metadata_()] returns when the
    transition is its return.

    [std::timed_mutex::try_lock_until] is taken by its contract: it returns
    true exactly when it has taken the mutex, which it does when it finds it
    unlocked; on a locked mutex it returns false, at the deadline by the
    standard, and possibly earlier (the early return line 110 is written
    for).  When it returns is the scheduler's choice here. *)
Definition PollForMetadata (pc : reporter)
    (answer : list ResourceMetadata) (w : World) : World :=
  match pc with
  | Querying =>
      (* 95: the call *)
      set_thread (Some (InQuery (now w))) w
  | InQuery called =>
      (* 95: the return *)
      set_thread (Some (Iterating answer)) (record (CallQuery called answer) w)
  | Iterating (result :: rest) =>
      (* 97 *)
      set_thread (Some (Consuming result rest))
                 (record (CallUpdateResource result) w)
  | Consuming result rest =>
      (* 98 *)
      set_thread (Some (Iterating rest)) (record (CallUpdateMetadata result) w)
  | Iterating [] =>
      (* 101-106 *)
      let w :=
        verbose ("Trying to unlock the timer for " ++ name_ w)%string w in
      let start := now w in
      let wakeup := chrono_plus start (period_ w) in
      set_thread (Some (Waiting start wakeup)) w
  | Waiting start wakeup =>
      (* 107: the return of [try_lock_until] *)
      match timer_ w with
      | Unlocked =>
          (* true: the mutex is taken, both loops end with [done] set *)
          let w := set_timer Locked w in
          (* 123-125 *)
          let w :=
            verbose ("Timer unlocked (stop polling) for " ++ name_ w)%string
                    w in
          set_thread (Some Finished) w
      | Locked =>
          (* false *)
          set_thread (Some (Woken start wakeup)) w
      end
  | Woken start wakeup =>
      (* 108-120 *)
      if chrono_less (now w) wakeup then
        (* 110-112: [continue], the condition of line 107 is evaluated again *)
        set_thread (Some (Waiting start wakeup)) w
      else
        let w := verbose (" Timer unlock timed out after "
                          ++ show_seconds (now w - start)
                          ++ "s (good) for " ++ name_ w)%string w in
        (* 118-120: [start] and [wakeup] are assigned and never read again;
           [done = false] ends the inner loop and repeats the outer one *)
        set_thread (Some Querying) w
  | Finished => w
  end.

Arguments PollForMetadata : simpl never.

(** What can happen next. *)
Inductive event :=
| Elapse (ticks : N)
    (* time passes: the clock advances *)
| ClockSet (reading : Z)
    (* the clock is set: [high_resolution_clock] need not be steady *)
| CallStart
| CallNotifyStop
| QueryReturns (result : list ResourceMetadata)
    (* the query callback returns [result] to the reporter thread *)
| ReporterStep.
    (* the reporter thread runs up to its next call or return *)

Definition exec (w : World) (e : event) : outcome World :=
  match e with
  | Elapse ticks => Returns (set_now (now w + Z.of_N ticks) w)
  | ClockSet reading => Returns (set_now reading w)
  | CallStart => MetadataUpdater.Start w
  | CallNotifyStop => MetadataUpdater.NotifyStop w
  | QueryReturns result =>
      match reporter_thread_ w with
      | Some (InQuery called) =>
          Returns (PollForMetadata (InQuery called) result w)
      | _ => Blocks
      end
  | ReporterStep =>
      match reporter_thread_ w with
      | None | Some (InQuery _) | Some Finished => Blocks
      | Some pc => Returns (PollForMetadata pc [] w)
      end
  end.

(** A schedule runs as long as each call returns or throws; an exception
    leaves [Start] and the caller goes on. *)
Fixpoint run (schedule : list event) (w : World) : option World :=
  match schedule with
  | [] => Some w
  | e :: rest =>
      match exec w e with
      | Returns w' | Throws _ w' => run rest w'
      | Blocks | Aborts => None
      end
  end.

(** *** The call history and its shape *)

(** The store callbacks of one result, in the order of lines 97-98. *)
Definition pair_calls (r : ResourceMetadata) : list call :=
  [CallUpdateResource r; CallUpdateMetadata r].

(** What one whole poll round calls: the query, then the two callbacks of
    each element of its result, in the result's order. *)
Definition round_calls (round : Z * list ResourceMetadata) : list call :=
  CallQuery (fst round) (snd round) :: flat_map pair_calls (snd round).

Definition rounds (h : list (Z * list ResourceMetadata)) : list call :=
  flat_map round_calls h.

Definition prefix (l m : list call) : Prop := exists tail, m = l ++ tail.

Fixpoint query_times (cs : list call) : list Z :=
  match cs with
  | [] => []
  | CallQuery t _ :: cs => t :: query_times cs
  | _ :: cs => query_times cs
  end.

Fixpoint store_calls (cs : list call) : list call :=
  match cs with
  | [] => []
  | CallQuery _ _ :: cs => store_calls cs
  | c :: cs => c :: store_calls cs
  end.

(** Each time point is at least [p] after the one before it. *)
Fixpoint spaced (p : Z) (ts : list Z) : Prop :=
  match ts with
  | t1 :: ((t2 :: _) as rest) => t1 + p <= t2 /\ spaced p rest
  | _ => True
  end.

(** A transition: the call returned, or [Start] threw. *)
Definition step (w : World) (e : event) (w' : World) : Prop :=
  exec w e = Returns w' \/ exists err, exec w e = Throws err w'.

Definition reachable (w0 w : World) : Prop :=
  exists schedule, run schedule w0 = Some w.

Definition is_reporter_event (e : event) : Prop :=
  match e with
  | QueryReturns _ | ReporterStep => True
  | _ => False
  end.

(** Every run of the reporter thread alone from [w] is finite and ends with
    the thread function returned, whatever the query callback returns. *)
Inductive finishes : World -> Prop :=
| finishes_now w :
    reporter_thread_ w = Some Finished -> finishes w
| finishes_later w :
    (exists e w', is_reporter_event e /\ exec w e = Returns w') ->
    (forall e w', is_reporter_event e -> exec w e = Returns w' -> finishes w') ->
    finishes w.

(** The transitions, one case per way a call can return. *)
Inductive transition (w : World) : event -> World -> Prop :=
| t_elapse ticks :
    transition w (Elapse ticks) (set_now (now w + Z.of_N ticks) w)
| t_clock_set reading :
    transition w (ClockSet reading) (set_now reading w)
| t_start_throws :
    transition w CallStart w
| t_start_skips :
    period_ w <= 0 ->
    transition w CallStart (LOG INFO ("Not starting " ++ name_ w)%string w)
| t_start_runs :
    0 < period_ w -> timer_ w = Unlocked -> reporter_thread_ w = None ->
    transition w CallStart
      (set_thread (Some Querying)
         (verbose ("Locked timer for " ++ name_ w)%string (set_timer Locked w)))
| t_stop :
    timer_ w = Locked ->
    transition w CallNotifyStop
      (verbose ("Unlocked timer for " ++ name_ w)%string (set_timer Unlocked w))
| t_query called result :
    reporter_thread_ w = Some (InQuery called) ->
    transition w (QueryReturns result)
               (PollForMetadata (InQuery called) result w)
| t_reporter pc :
    reporter_thread_ w = Some pc ->
    (forall called, pc <> InQuery called) -> pc <> Finished ->
    transition w ReporterStep (PollForMetadata pc [] w).

(** The clock is not set: it only advances. *)
Definition steady (e : event) : Prop :=
  match e with ClockSet _ => False | _ => True end.

(** The deadline arithmetic is exact: the comparison of line 110 fails only
    on a reading that is one period or more after the start. *)
Definition exact_chrono : Prop :=
  forall start reading period,
    chrono_less reading (chrono_plus start period) = false ->
    start + period <= reading.

(** A thread exists only with a positive period, and the deadline it waits
    for is the one computed from the start it holds. *)
Definition deadlines (w : World) : Prop :=
  match reporter_thread_ w with
  | None => True
  | Some pc =>
      0 < period_ w /\
      match pc with
      | Waiting start wakeup | Woken start wakeup =>
          wakeup = chrono_plus start (period_ w)
      | _ => True
      end
  end.

(** Queries made so far are spaced by the period, and the reporter's
    deadline is one period after a clock value read after the last query. *)
Definition timing (w : World) : Prop :=
  spaced (period_ w) (query_times (calls w)) /\
  match reporter_thread_ w with
  | None => calls w = []
  | Some pc =>
      0 < period_ w /\
      match pc with
      | Querying =>
          forall t, In t (query_times (calls w)) -> t + period_ w <= now w
      | InQuery called =>
          called <= now w /\
          forall t, In t (query_times (calls w)) -> t + period_ w <= called
      | Waiting start wakeup | Woken start wakeup =>
          wakeup = chrono_plus start (period_ w) /\ start <= now w /\
          forall t, In t (query_times (calls w)) -> t <= start
      | _ => forall t, In t (query_times (calls w)) -> t <= now w
      end
  end.

(** The history is whole rounds, followed, while the reporter is inside the
    loop of lines 96-99, by the query of the current round and the callbacks
    of the elements already visited. *)
Definition shape (w : World) : Prop :=
  exists h,
    match reporter_thread_ w with
    | None => calls w = []
    | Some (Iterating items) =>
        exists t done,
          calls w = rounds h ++ CallQuery t (done ++ items)
                                :: flat_map pair_calls done
    | Some (Consuming r rest) =>
        exists t done,
          calls w = rounds h ++ CallQuery t (done ++ r :: rest)
                                :: flat_map pair_calls done
                                ++ [CallUpdateResource r]
    | Some _ => calls w = rounds h
    end.

(** With the timer locked the reporter thread never returns. *)
Definition polling (w : World) : Prop :=
  timer_ w = Locked /\
  exists pc, reporter_thread_ w = Some pc /\ pc <> Finished.

(** A scheduler that was never started: no thread and no call. *)
Definition idle (w : World) : Prop :=
  reporter_thread_ w = None /\ calls w = [] /\ timer_ w = Unlocked.

Definition no_query (e : event) : Prop :=
  match e with QueryReturns _ => False | _ => True end.

(** Where the history stands during the round whose query returned [rs],
    [c0] being the history up to and including that query. *)
Definition in_round (c0 : list call) (rs : list ResourceMetadata)
    (w : World) : Prop :=
  match reporter_thread_ w with
  | None => False
  | Some (Iterating items) =>
      exists done,
        rs = done ++ items /\ calls w = c0 ++ flat_map pair_calls done
  | Some (Consuming r rest) =>
      exists done,
        rs = done ++ r :: rest /\
        calls w = c0 ++ flat_map pair_calls done ++ [CallUpdateResource r]
  | Some _ => calls w = c0 ++ flat_map pair_calls rs
  end.

(** *** What the further properties speak of *)

(** Two states that differ at most in the configuration, the name and the
    log; two outcomes, and two results of a run, that differ at most so. *)
Definition same_run_state (w1 w2 : World) : Prop :=
  period_ w1 = period_ w2 /\ timer_ w1 = timer_ w2 /\
  reporter_thread_ w1 = reporter_thread_ w2 /\
  now w1 = now w2 /\ calls w1 = calls w2.

Definition same_outcome (o1 o2 : outcome World) : Prop :=
  match o1, o2 with
  | Returns a, Returns b => same_run_state a b
  | Throws e1 a, Throws e2 b => e1 = e2 /\ same_run_state a b
  | Blocks, Blocks | Aborts, Aborts => True
  | _, _ => False
  end.

Definition same_result (r1 r2 : option World) : Prop :=
  match r1, r2 with
  | Some a, Some b => same_run_state a b
  | None, None => True
  | _, _ => False
  end.

(** How each call of a schedule ends, with the error it throws if it
    throws, up to the first call that blocks or aborts. *)
Inductive ending :=
| Returned
| Threw (e : ConfigurationValidationError)
| Blocked
| Aborted.

Fixpoint endings (schedule : list event) (w : World) : list ending :=
  match schedule with
  | [] => []
  | e :: rest =>
      match exec w e with
      | Returns w' => Returned :: endings rest w'
      | Throws err w' => Threw err :: endings rest w'
      | Blocks => [Blocked]
      | Aborts => [Aborted]
      end
  end.

(** How many more queries a reporter standing at [pc] can still record once
    the timer is released: the one it is about to make or is inside, or the
    one of the round a tick would begin. *)
Definition queries_left (pc : reporter) : nat :=
  match pc with
  | Querying | InQuery _ | Woken _ _ => 1
  | _ => 0
  end.

(** The stop is under way: the timer is released and not yet observed, or
    the thread function has returned; at most [n] queries are recorded in
    the end. *)
Definition stopping_within (n : nat) (w : World) : Prop :=
  exists pc,
    reporter_thread_ w = Some pc /\
    (timer_ w = Unlocked \/ pc = Finished) /\
    (List.length (query_times (calls w)) + queries_left pc <= n)%nat.

(** Past its first query: a reporter that is anywhere but before or inside
    a query has recorded one. *)
Definition polled (w : World) : Prop :=
  match reporter_thread_ w with
  | None | Some Querying | Some (InQuery _) => True
  | Some _ => query_times (calls w) <> []
  end.

(** The elements of all the query results, in the order queried. *)
Fixpoint queried (cs : list call) : list ResourceMetadata :=
  match cs with
  | [] => []
  | CallQuery _ result :: cs => result ++ queried cs
  | _ :: cs => queried cs
  end.

(** The reporter is not inside the loop of lines 96-99. *)
Definition outside_loop (w : World) : Prop :=
  match reporter_thread_ w with
  | Some (Iterating _) | Some (Consuming _ _) => False
  | _ => True
  end.

(** Every line of the log is at severity [INFO]; every line is the notice
    of line 40. *)
Definition only_info (w : World) : Prop :=
  Forall (fun entry => fst entry = INFO) (log w).

Definition only_skip_notices (w : World) : Prop :=
  Forall (fun entry => entry = (INFO, ("Not starting " ++ name_ w)%string))
         (log w).

(** An updater named docker with verbose logging, constructed at clock
    100; the same once started with period 5; and a schedule of its first
    round: the query called at 100 returns at 101, the wait has an early
    wake-up at 103 and its tick at 107, when the second query is called. *)
Definition docker (period_s : Z) : World :=
  construct {| VerboseLogging := true |} "docker" period_s 100.

Definition started : World :=
  mkWorld {| VerboseLogging := true |} "docker" 5 Locked (Some Querying)
          100 [] [(INFO, "Locked timer for docker"%string)].

(** The started updater in its first wait, after [NotifyStop]. *)
Definition stopping : World :=
  mkWorld {| VerboseLogging := false |} "docker" 5 Unlocked
          (Some (Waiting 100 105)) 102 [CallQuery 100 []] [].

Definition two_rounds (r : ResourceMetadata) : list event :=
  [CallStart; ReporterStep; Elapse 1; QueryReturns [r];
   ReporterStep; ReporterStep; ReporterStep;
   ReporterStep; Elapse 2; ReporterStep; ReporterStep; Elapse 4;
   ReporterStep; ReporterStep; QueryReturns []].

(** *** Tactics *)

Create Rewrite HintDb world.

Ltac world := simpl; autorewrite with world; simpl.

(** The control points a [ReporterStep] can start from. *)
Ltac by_pc pc :=
  destruct pc as [|called|[|r rest]|r rest|start wakeup|start wakeup|];
  try congruence;
  try (exfalso;
       match goal with
       | H : forall c, InQuery _ <> InQuery c |- _ => apply (H _ eq_refl)
       end).

Ltac returned H :=
  destruct H as [H | [? H]]; try discriminate H; injection H; intros; subst.

(** ** Facts about [PollingMetadataUpdater] *)

(** *** Bookkeeping: what each update leaves alone *)

Lemma verbose_fields line w :
  config_ (verbose line w) = config_ w /\
  name_ (verbose line w) = name_ w /\
  period_ (verbose line w) = period_ w /\
  timer_ (verbose line w) = timer_ w /\
  reporter_thread_ (verbose line w) = reporter_thread_ w /\
  now (verbose line w) = now w /\
  calls (verbose line w) = calls w.
Proof.
  unfold verbose; destruct (VerboseLogging (config_ w)); simpl; repeat split.
Qed.

Lemma verbose_config line w : config_ (verbose line w) = config_ w.
Proof. apply verbose_fields. Qed.
Lemma verbose_name line w : name_ (verbose line w) = name_ w.
Proof. apply verbose_fields. Qed.
Lemma verbose_period line w : period_ (verbose line w) = period_ w.
Proof. apply verbose_fields. Qed.
Lemma verbose_timer line w : timer_ (verbose line w) = timer_ w.
Proof. apply verbose_fields. Qed.
Lemma verbose_thread line w :
  reporter_thread_ (verbose line w) = reporter_thread_ w.
Proof. apply verbose_fields. Qed.
Lemma verbose_now line w : now (verbose line w) = now w.
Proof. apply verbose_fields. Qed.
Lemma verbose_calls line w : calls (verbose line w) = calls w.
Proof. apply verbose_fields. Qed.

#[local] Hint Rewrite verbose_config verbose_name verbose_period verbose_timer
  verbose_thread verbose_now verbose_calls : world.

Lemma step_transition w e w' : step w e w' -> transition w e w'.
Proof.
  unfold step; destruct e; unfold exec;
    unfold MetadataUpdater.Start, MetadataUpdater.NotifyStop; simpl.
  - intros H; returned H; constructor.
  - intros H; returned H; constructor.
  - unfold ValidateStaticConfiguration, ShouldStartUpdater, StartUpdater.
    destruct (Z.ltb_spec (period_ w) 0).
    { intros H'; returned H'; constructor. }
    destruct (Z.ltb_spec 0 (period_ w)).
    + destruct (inherited_ValidateDynamicConfiguration (config_ w)).
      { intros H'; returned H'; constructor. }
      destruct (timer_ w) eqn:Ht.
      * rewrite verbose_thread; simpl.
        destruct (reporter_thread_ w) eqn:Hr; intros H'; returned H'.
        now constructor.
      * intros H'; returned H'.
    + intros H'; returned H'. now constructor.
  - unfold NotifyStopUpdater.
    destruct (timer_ w) eqn:Ht; intros H'; returned H'. now constructor.
  - destruct (reporter_thread_ w) as [[]|] eqn:Hr; intros H'; returned H'.
    now constructor.
  - destruct (reporter_thread_ w) as [pc|] eqn:Hr.
    + destruct pc; intros H'; returned H'; apply t_reporter;
        congruence || (intros called0; congruence).
    + intros H'; returned H'.
Qed.

(** A property kept by every transition holds along every schedule. *)
Lemma run_invariant (P : World -> Prop) :
  (forall w e w', P w -> transition w e w' -> P w') ->
  forall schedule w w', P w -> run schedule w = Some w' -> P w'.
Proof.
  intros Hstep; induction schedule as [|e rest IH]; intros w w' HP Hrun; simpl in Hrun.
  - now inversion Hrun; subst.
  - destruct (exec w e) as [w1|err w1| |] eqn:He; try discriminate.
    + apply (IH w1); auto. apply (Hstep w e); auto.
      apply step_transition; left; exact He.
    + apply (IH w1); auto. apply (Hstep w e); auto.
      apply step_transition; right; exists err; exact He.
Qed.

(** *** Lists of calls *)

Lemma query_times_app l m :
  query_times (l ++ m) = query_times l ++ query_times m.
Proof.
  induction l as [|[] l IH]; simpl; auto. now rewrite IH.
Qed.

Lemma store_calls_app l m :
  store_calls (l ++ m) = store_calls l ++ store_calls m.
Proof.
  induction l as [|[] l IH]; simpl; auto; now rewrite IH.
Qed.

Lemma spaced_snoc p ts t' :
  spaced p ts -> (forall t, In t ts -> t + p <= t') -> spaced p (ts ++ [t']).
Proof.
  induction ts as [|t1 ts IH]; simpl; auto.
  intros Hs Hin. destruct ts as [|t2 ts].
  - simpl. split; [apply Hin; now left | exact I].
  - destruct Hs as [H12 Hs].
    change (t1 + p <= t2 /\ spaced p ((t2 :: ts) ++ [t'])).
    split; [exact H12|]. apply IH; [exact Hs|].
    intros t Ht; apply Hin; now right.
Qed.

Lemma rounds_snoc h r : rounds (h ++ [r]) = rounds h ++ round_calls r.
Proof.
  unfold rounds. rewrite flat_map_app. simpl. now rewrite app_nil_r.
Qed.

(** *** The timing invariant *)

Lemma timing_construct config name period_s clock :
  timing (construct config name period_s clock).
Proof. split; simpl; auto. Qed.

Lemma timing_step w e w' :
  exact_chrono -> timing w -> steady e -> transition w e w' -> timing w'.
Proof.
  intros Hexact [Hs Hpc] He Ht; destruct Ht; unfold timing; world;
    try contradiction.
  - (* Elapse *)
    split; auto. destruct (reporter_thread_ w) as [[]|]; auto;
      destruct Hpc as [Hp Hpc]; split; auto;
      try (intros t Hin; specialize (Hpc t Hin); lia).
    + destruct Hpc as [Hc Hq]; split; [lia | auto].
    + destruct Hpc as (-> & Hst & Hq); repeat split; auto; lia.
    + destruct Hpc as (-> & Hst & Hq); repeat split; auto; lia.
  - split; auto.
  - split; auto.
  - rewrite H1 in Hpc. rewrite Hpc in *. simpl. repeat split; auto.
    intros t [].
  - split; auto.
  - (* the return of the query *)
    rewrite H in Hpc. destruct Hpc as (Hp & Hc & Hq).
    unfold PollForMetadata; world.
    rewrite query_times_app; simpl. split.
    + apply spaced_snoc; auto.
    + split; auto. intros t Hin. apply in_app_or in Hin.
      destruct Hin as [Hin | [<- | []]]; [specialize (Hq t Hin)|]; lia.
  - (* the other reporter steps *)
    rewrite H in Hpc. destruct Hpc as [Hp Hpc].
    by_pc pc; unfold PollForMetadata; world.
    + repeat split; auto; lia.
    + repeat split; auto; lia.
    + rewrite query_times_app, app_nil_r; simpl. repeat split; auto.
    + rewrite query_times_app, app_nil_r; simpl. repeat split; auto.
    + destruct Hpc as (-> & Hst & Hq).
      destruct (timer_ w); world; repeat split; auto.
      intros t Hin; specialize (Hq t Hin); lia.
    + destruct Hpc as (-> & Hst & Hq).
      destruct (chrono_less (now w) (chrono_plus start (period_ w))) eqn:Hlt;
        world; repeat split; auto.
      apply Hexact in Hlt.
      intros t Hin; specialize (Hq t Hin); lia.
Qed.

(** *** The deadline held by the reporter *)

Lemma deadlines_construct config name period_s clock :
  deadlines (construct config name period_s clock).
Proof. exact I. Qed.

Lemma deadlines_step w e w' : deadlines w -> transition w e w' -> deadlines w'.
Proof.
  unfold deadlines. intros Hd Ht; destruct Ht; world; auto.
  - rewrite H in Hd. unfold PollForMetadata; world. tauto.
  - rewrite H in Hd. destruct Hd as [Hp Hd].
    by_pc pc; unfold PollForMetadata; world; auto.
    + destruct (timer_ w); world; auto.
    + destruct (chrono_less (now w) wakeup); world; auto.
Qed.

Lemma deadlines_reachable config name period_s clock w :
  reachable (construct config name period_s clock) w -> deadlines w.
Proof.
  intros [schedule Hrun].
  apply (run_invariant deadlines deadlines_step schedule _ _
           (deadlines_construct config name period_s clock) Hrun).
Qed.

(** *** The shape of the call history *)

Lemma shape_construct config name period_s clock :
  shape (construct config name period_s clock).
Proof. exists []; reflexivity. Qed.

Lemma shape_step w e w' : shape w -> transition w e w' -> shape w'.
Proof.
  intros [h Hh] Ht; destruct Ht; unfold shape; world;
    try (exists h; exact Hh).
  - rewrite H1 in Hh. exists []. now rewrite Hh.
  - (* the return of the query *)
    rewrite H in Hh. unfold PollForMetadata; world.
    exists h, called, []. now rewrite Hh.
  - (* the other reporter steps *)
    rewrite H in Hh.
    by_pc pc; unfold PollForMetadata; world.
    + exists h; exact Hh.
    + destruct Hh as (t & done & Hh). exists (h ++ [(t, done)]).
      rewrite rounds_snoc. unfold round_calls; simpl.
      now rewrite app_nil_r in Hh.
    + destruct Hh as (t & done & Hh). exists h, t, done.
      now rewrite Hh, <- app_assoc.
    + destruct Hh as (t & done & Hh). exists h, t, (done ++ [r]).
      rewrite Hh, flat_map_app; simpl.
      rewrite <- !app_assoc; simpl.
      now rewrite <- !app_assoc.
    + destruct (timer_ w); world; exists h; exact Hh.
    + destruct (chrono_less (now w) wakeup); world; exists h; exact Hh.
Qed.

Lemma shape_reachable config name period_s clock w :
  reachable (construct config name period_s clock) w -> shape w.
Proof.
  intros [schedule Hrun].
  apply (run_invariant shape shape_step schedule _ _
           (shape_construct config name period_s clock) Hrun).
Qed.

Lemma shape_prefix w : shape w -> exists h, prefix (calls w) (rounds h).
Proof.
  intros [h Hh]. destruct (reporter_thread_ w) as [pc|].
  - destruct pc as [|called|items|r rest|start wakeup|start wakeup|];
      try (exists h, []; now rewrite app_nil_r).
    + destruct Hh as (t & done & Hh). exists (h ++ [(t, done ++ items)]).
      exists (flat_map pair_calls items).
      rewrite rounds_snoc, Hh. unfold round_calls; simpl.
      now rewrite flat_map_app, <- !app_assoc.
    + destruct Hh as (t & done & Hh). exists (h ++ [(t, done ++ r :: rest)]).
      exists (CallUpdateMetadata r :: flat_map pair_calls rest).
      rewrite rounds_snoc, Hh. unfold round_calls; simpl.
      rewrite flat_map_app; simpl. rewrite <- !app_assoc; simpl.
      now rewrite <- !app_assoc.
  - exists [], []. now rewrite Hh.
Qed.

(** *** The reporter thread on its own *)

Lemma exec_reporter w e w' :
  is_reporter_event e -> exec w e = Returns w' ->
  exists pc answer,
    reporter_thread_ w = Some pc /\ pc <> Finished /\
    w' = PollForMetadata pc answer w.
Proof.
  intros He Hx.
  assert (Ht : transition w e w') by (apply step_transition; now left).
  destruct Ht; try contradiction.
  - exists (InQuery called), result. repeat split; auto; congruence.
  - exists pc, []. auto.
Qed.

Lemma reporter_progress w pc :
  reporter_thread_ w = Some pc -> pc <> Finished ->
  exists e w', is_reporter_event e /\ exec w e = Returns w'.
Proof.
  intros Hpc Hne. destruct pc; try congruence.
  2: exists (QueryReturns []).
  1, 3-6: exists ReporterStep.
  all: unfold exec; rewrite Hpc; eexists; split; [exact I | reflexivity].
Qed.

(** The reporter at [Hpc] can move, and it remains to follow its move. *)
Ltac next_step w Hpc :=
  apply finishes_later;
  [ apply (reporter_progress w _ Hpc); congruence
  | let e := fresh "e" in
    let w' := fresh "w" in
    let He := fresh "He" in
    let Hx := fresh "Hx" in
    let pc := fresh "pc" in
    let answer := fresh "answer" in
    let Hpc' := fresh "Hpc" in
    intros e w' He Hx;
    destruct (exec_reporter _ _ _ He Hx) as (pc & answer & Hpc' & _ & ->);
    rewrite Hpc in Hpc'; injection Hpc' as <-;
    unfold PollForMetadata ].

(** With the timer released, a reporter at line 107 returns at once. *)
Lemma finishes_waiting w start wakeup :
  reporter_thread_ w = Some (Waiting start wakeup) -> timer_ w = Unlocked ->
  finishes w.
Proof.
  intros Hpc Ht. next_step w Hpc.
  apply finishes_now. rewrite Ht. now world.
Qed.

Lemma finishes_iterating items :
  forall w, reporter_thread_ w = Some (Iterating items) ->
            timer_ w = Unlocked -> finishes w.
Proof.
  induction items as [|r rest IH]; intros w Hpc Ht; next_step w Hpc.
  - eapply finishes_waiting; world; eauto.
  - (* line 97 done; line 98 comes next *)
    match goal with |- finishes ?w1 =>
      assert (Hpc1 : reporter_thread_ w1 = Some (Consuming r rest))
        by reflexivity;
      next_step w1 Hpc1
    end.
    apply IH; world; auto.
Qed.

Lemma finishes_in_query w called :
  reporter_thread_ w = Some (InQuery called) -> timer_ w = Unlocked ->
  finishes w.
Proof.
  intros Hpc Ht. next_step w Hpc.
  eapply finishes_iterating; world; eauto.
Qed.

Lemma finishes_querying w :
  reporter_thread_ w = Some Querying -> timer_ w = Unlocked -> finishes w.
Proof.
  intros Hpc Ht. next_step w Hpc.
  eapply finishes_in_query; world; eauto.
Qed.

(** Once [NotifyStop] has released the timer, the reporter thread ends:
    it completes the round in flight and returns at its next wait. *)
Lemma finishes_released w pc :
  reporter_thread_ w = Some pc -> timer_ w = Unlocked -> finishes w.
Proof.
  intros Hpc Ht.
  destruct pc as [|called|items|r rest|start wakeup|start wakeup|].
  - now apply finishes_querying.
  - now apply (finishes_in_query w called).
  - now apply (finishes_iterating items).
  - next_step w Hpc. eapply finishes_iterating; world; eauto.
  - now apply (finishes_waiting w start wakeup).
  - next_step w Hpc. destruct (chrono_less (now w) wakeup).
    + eapply finishes_waiting; world; eauto.
    + apply finishes_querying; world; auto.
  - now apply finishes_now.
Qed.

Lemma polling_step w e w' :
  polling w -> e <> CallNotifyStop -> transition w e w' -> polling w'.
Proof.
  intros (Ht & q & Hq & Hne) He Htr; destruct Htr; unfold polling; world;
    try congruence; try solve [split; [auto | exists q; auto]].
  - unfold PollForMetadata; world. split; auto. eexists; split; eauto; congruence.
  - assert (q = pc) by congruence; subst q.
    by_pc pc; unfold PollForMetadata; world;
      try (split; [auto | eexists; split; eauto; congruence]).
    + rewrite Ht; world. split; [auto | eexists; split; eauto; congruence].
    + destruct (chrono_less (now w) wakeup); world;
        (split; [auto | eexists; split; eauto; congruence]).
Qed.

(** The members left alone by every transition. *)
Lemma constants_step w e w' :
  transition w e w' ->
  config_ w' = config_ w /\ name_ w' = name_ w /\ period_ w' = period_ w.
Proof.
  intros Ht; destruct Ht; world; auto.
  by_pc pc; unfold PollForMetadata; world; auto.
  - destruct (timer_ w); world; auto.
  - destruct (chrono_less (now w) wakeup); world; auto.
Qed.

Lemma idle_step w e w' :
  period_ w <= 0 /\ idle w -> transition w e w' -> period_ w' <= 0 /\ idle w'.
Proof.
  intros (Hp & Hr & Hc & Hm) Ht; destruct Ht; unfold idle; world;
    auto; try lia; try congruence.
Qed.

Lemma constants_reachable w0 w :
  reachable w0 w ->
  config_ w = config_ w0 /\ name_ w = name_ w0 /\ period_ w = period_ w0.
Proof.
  intros [schedule Hrun].
  refine (run_invariant
            (fun w => config_ w = config_ w0 /\ name_ w = name_ w0 /\
                      period_ w = period_ w0) _ schedule w0 w _ Hrun); auto.
  intros w1 e w2 (Hc & Hn & Hp) Ht.
  destruct (constants_step _ _ _ Ht) as (-> & -> & ->); auto.
Qed.

(** The thread function returns in one way only: [try_lock_until] takes the
    released timer. *)
Lemma exit_step w e w' :
  transition w e w' ->
  reporter_thread_ w' = Some Finished -> reporter_thread_ w <> Some Finished ->
  e = ReporterStep /\ timer_ w = Unlocked /\ timer_ w' = Locked /\
  exists start wakeup, reporter_thread_ w = Some (Waiting start wakeup).
Proof.
  intros Ht; destruct Ht; world; try congruence.
  by_pc pc; unfold PollForMetadata; world; try congruence.
  - destruct (timer_ w) eqn:Hm; world; try congruence.
    intros _ _. repeat split; eauto.
  - destruct (chrono_less (now w) wakeup); world; congruence.
Qed.

(** A round begins in two ways only: the thread has just been created, or
    the comparison of line 110 has found the clock at the deadline of the
    round before. *)
Lemma round_start_step w e w' :
  transition w e w' ->
  reporter_thread_ w' = Some Querying -> reporter_thread_ w <> Some Querying ->
  (e = CallStart /\ reporter_thread_ w = None) \/
  (e = ReporterStep /\ timer_ w' = timer_ w /\
   exists start wakeup,
     reporter_thread_ w = Some (Woken start wakeup) /\
     chrono_less (now w) wakeup = false).
Proof.
  intros Ht; destruct Ht; world; try congruence.
  - now left.
  - by_pc pc; unfold PollForMetadata; world; try congruence.
    + destruct (timer_ w) eqn:Hm; world; congruence.
    + destruct (chrono_less (now w) wakeup) eqn:Hlt; world; try congruence.
      intros _ _. right. repeat split; eauto.
Qed.

Lemma idle_reachable config name period_s clock w :
  period_s <= 0 ->
  reachable (construct config name period_s clock) w -> idle w.
Proof.
  intros Hp [schedule Hrun].
  refine (proj2 (run_invariant (fun w => period_ w <= 0 /\ idle w) idle_step
                   schedule _ w _ Hrun)).
  simpl; repeat split; auto.
Qed.

(** *** One poll round *)

(** A property kept by the transitions of some events holds along every
    schedule made of such events. *)
Lemma run_invariant_on (allowed : event -> Prop) (P : World -> Prop) :
  (forall w e w', P w -> allowed e -> transition w e w' -> P w') ->
  forall schedule w w',
    P w -> Forall allowed schedule -> run schedule w = Some w' -> P w'.
Proof.
  intros Hstep; induction schedule as [|e rest IH]; intros w w' HP Hall Hrun;
    simpl in Hrun.
  - now inversion Hrun; subst.
  - inversion Hall as [|? ? He Hrest]; subst.
    destruct (exec w e) as [w1|err w1| |] eqn:Hx; try discriminate.
    + apply (IH w1); auto. apply (Hstep w e); auto.
      apply step_transition; now left.
    + apply (IH w1); auto. apply (Hstep w e); auto.
      apply step_transition; right; now exists err.
Qed.

Lemma in_round_step c0 rs w e w' :
  in_round c0 rs w -> no_query e -> transition w e w' -> in_round c0 rs w'.
Proof.
  unfold in_round. intros Hin Hq Ht; destruct Ht; world; auto;
    try contradiction.
  - now rewrite H1 in Hin.
  - rewrite H in Hin.
    by_pc pc; unfold PollForMetadata; world.
    + exact Hin.
    + destruct Hin as (done & -> & Hc). now rewrite app_nil_r.
    + destruct Hin as (done & -> & Hc). exists done. split; auto.
      now rewrite Hc, <- app_assoc.
    + destruct Hin as (done & -> & Hc). exists (done ++ [r]). split.
      * now rewrite <- app_assoc.
      * rewrite Hc, flat_map_app; simpl. now rewrite <- !app_assoc.
    + destruct (timer_ w); world; auto.
    + destruct (chrono_less (now w) wakeup); world; auto.
Qed.

(** From the return of a query with [rs] up to the return of the next,
    whatever the caller and the clock do in between, the history is the one
    before, the query, and the callbacks of a prefix of [rs] in order: all of
    [rs] once the reporter has left the loop of lines 96-99. *)
Lemma round_run w called rs schedule w' :
  reporter_thread_ w = Some (InQuery called) ->
  Forall no_query schedule ->
  run (QueryReturns rs :: schedule) w = Some w' ->
  in_round (calls w ++ [CallQuery called rs]) rs w'.
Proof.
  intros Hpc Hall Hrun. simpl in Hrun. rewrite Hpc in Hrun.
  refine (run_invariant_on no_query _ _ schedule _ w' _ Hall Hrun).
  - intros w1 e w2 H1 He Ht. now apply (in_round_step _ _ w1 e).
  - unfold in_round, PollForMetadata; world. exists []. split; auto.
    simpl. now rewrite app_nil_r.
Qed.

Lemma polling_run w schedule w' :
  polling w ->
  Forall (fun e => e <> CallNotifyStop) schedule ->
  run schedule w = Some w' -> polling w'.
Proof.
  intros Hp Hall Hrun.
  refine (run_invariant_on _ polling _ schedule w w' Hp Hall Hrun).
  intros w1 e w2 H1 He Ht. now apply (polling_step w1 e).
Qed.

(** Where the arithmetic is exact and the clock is not set, the timing
    invariant holds along the schedule. *)
Lemma timing_steady :
  exact_chrono ->
  forall config name period_s clock schedule w,
    Forall steady schedule ->
    run schedule (construct config name period_s clock) = Some w ->
    timing w.
Proof.
  intros Hexact config name period_s clock schedule w Hst Hrun.
  refine (run_invariant_on steady timing _ schedule _ w
            (timing_construct config name period_s clock) Hst Hrun).
  intros w1 e w2 H1 He Ht. now apply (timing_step w1 e).
Qed.

(** *** The claims *)


(** C2.  With a negative period, [Start] throws a
    [ConfigurationValidationError] whose message is the template of line 68
    with the period's value substituted, and leaves the state as it found
    it; from construction on, whatever is called, there is never a thread
    and never a call of the query or of the store. *)
Theorem negative_period_is_rejected :
  forall config name period_s clock,
    period_s < 0 ->
    (forall w,
        period_ w = period_s ->
        MetadataUpdater.Start w =
        Throws {| what := Substitute
                            "Polling period {{period}}s cannot be negative"
                            [("period"%string, str period_s)] |} w) /\
    reporter_thread_ (construct config name period_s clock) = None /\
    (forall w,
        reachable (construct config name period_s clock) w ->
        reporter_thread_ w = None /\ calls w = []).
Proof.
  intros config name period_s clock Hneg. split; [|split].
  - intros w Hp. unfold MetadataUpdater.Start; simpl.
    unfold ValidateStaticConfiguration. rewrite Hp.
    destruct (Z.ltb_spec period_s 0); [reflexivity | lia].
  - reflexivity.
  - intros w Hr.
    destruct (idle_reachable config name period_s clock w) as (Ht & Hc & _);
      auto; lia.
Qed.

(** C3, as the code has it.  The destructor does not touch the timer: it
    only joins.  (1) When it returns, the timer and the call history are
    unchanged, the handle is no longer joinable, and the thread function had
    already returned or no thread was ever created.  (2) While the thread
    function has not returned, it blocks.  (3) Once the thread function has
    returned, it returns, and (4) with no thread it returns at once and
    changes nothing.  (5) [NotifyStop] on a running updater releases the
    timer, and from then on every run of the reporter thread is finite and
    ends with the thread function returned, so the join then completes.
    (6) Without a [NotifyStop], the destructor of a running updater stays
    blocked, whatever else happens. *)
Theorem destructor_joins_after_stop :
  (forall w w',
      Destructor w = Returns w' ->
      timer_ w' = timer_ w /\ calls w' = calls w /\
      reporter_thread_ w' = None /\
      (reporter_thread_ w = None \/ reporter_thread_ w = Some Finished)) /\
  (forall w pc,
      reporter_thread_ w = Some pc -> pc <> Finished ->
      Destructor w = Blocks) /\
  (forall w,
      reporter_thread_ w = Some Finished ->
      Destructor w = Returns (set_thread None w)) /\
  (forall w, reporter_thread_ w = None -> Destructor w = Returns w) /\
  (forall w pc,
      reporter_thread_ w = Some pc -> timer_ w = Locked ->
      exists w1,
        MetadataUpdater.NotifyStop w = Returns w1 /\
        timer_ w1 = Unlocked /\ finishes w1) /\
  (forall w schedule w',
      polling w ->
      Forall (fun e => e <> CallNotifyStop) schedule ->
      run schedule w = Some w' ->
      timer_ w' = Locked /\ Destructor w' = Blocks).
Proof.
  refine (conj _ (conj _ (conj _ (conj _ (conj _ _))))).
  - intros w w'. unfold Destructor.
    destruct (reporter_thread_ w) as [[]|] eqn:Hpc; intros H;
      inversion H; subst; simpl; auto.
  - intros w pc Hpc Hne. unfold Destructor. rewrite Hpc.
    destruct pc; congruence.
  - intros w Hpc. unfold Destructor. now rewrite Hpc.
  - intros w Hpc. unfold Destructor. now rewrite Hpc.
  - intros w pc Hpc Ht. unfold MetadataUpdater.NotifyStop; simpl.
    unfold NotifyStopUpdater. rewrite Ht. eexists; split; [reflexivity|].
    split; [now world|]. apply (finishes_released _ pc); now world.
  - intros w schedule w' Hp Hall Hrun.
    destruct (polling_run w schedule w' Hp Hall Hrun) as (Ht & pc & Hpc & Hne).
    split; [exact Ht|]. unfold Destructor. rewrite Hpc.
    destruct pc; congruence.
Qed.

(** C4.  (1) The thread created by [Start] stands before the query of line
    95 with nothing called yet, and (2) the first thing it does is to call
    the query: no clock is read and no wait is made before.  (3) If the
    query returns [A, B, C], the next six steps of the reporter call
    resource-update and metadata-update of [A], then of [B], then of [C],
    and leave the loop.  (4) Whatever the caller and the clock do during the
    round, the history up to the return of the next query is the history
    before, the query, and the callbacks of [A, B, C] in that order, cut
    somewhere, and complete once the reporter has left the loop.  (5) Along
    every schedule the history is the beginning of a sequence of whole
    rounds, each one query followed by the two callbacks of each of its
    results in order: neither items nor rounds overlap. *)
Theorem store_sees_each_round_in_order :
  (forall config name period_s clock,
      0 < period_s ->
      inherited_ValidateDynamicConfiguration config = None ->
      exists w',
        exec (construct config name period_s clock) CallStart = Returns w' /\
        reporter_thread_ w' = Some Querying /\ calls w' = []) /\
  (forall w,
      reporter_thread_ w = Some Querying ->
      exists w1,
        exec w ReporterStep = Returns w1 /\
        reporter_thread_ w1 = Some (InQuery (now w)) /\
        calls w1 = calls w /\
        forall rs, exists w2,
          exec w1 (QueryReturns rs) = Returns w2 /\
          reporter_thread_ w2 = Some (Iterating rs) /\
          calls w2 = calls w ++ [CallQuery (now w) rs]) /\
  (forall w called A B C,
      reporter_thread_ w = Some (InQuery called) ->
      exists w',
        run [QueryReturns [A; B; C]; ReporterStep; ReporterStep; ReporterStep;
             ReporterStep; ReporterStep; ReporterStep] w = Some w' /\
        reporter_thread_ w' = Some (Iterating []) /\
        calls w' =
        calls w ++ [CallQuery called [A; B; C];
                    CallUpdateResource A; CallUpdateMetadata A;
                    CallUpdateResource B; CallUpdateMetadata B;
                    CallUpdateResource C; CallUpdateMetadata C]) /\
  (forall w called A B C schedule w',
      reporter_thread_ w = Some (InQuery called) ->
      Forall no_query schedule ->
      run (QueryReturns [A; B; C] :: schedule) w = Some w' ->
      prefix (calls w')
             (calls w ++ [CallQuery called [A; B; C];
                          CallUpdateResource A; CallUpdateMetadata A;
                          CallUpdateResource B; CallUpdateMetadata B;
                          CallUpdateResource C; CallUpdateMetadata C]) /\
      ((forall items, reporter_thread_ w' <> Some (Iterating items)) ->
       (forall r rest, reporter_thread_ w' <> Some (Consuming r rest)) ->
       calls w' =
       calls w ++ [CallQuery called [A; B; C];
                   CallUpdateResource A; CallUpdateMetadata A;
                   CallUpdateResource B; CallUpdateMetadata B;
                   CallUpdateResource C; CallUpdateMetadata C])) /\
  (forall config name period_s clock w,
      reachable (construct config name period_s clock) w ->
      exists h, prefix (calls w) (rounds h)).
Proof.
  refine (conj _ (conj _ (conj _ (conj _ _)))).
  - intros config name period_s clock Hp Hd.
    unfold exec, MetadataUpdater.Start; simpl.
    unfold ValidateStaticConfiguration, ShouldStartUpdater; simpl.
    destruct (Z.ltb_spec period_s 0); [lia|].
    destruct (Z.ltb_spec 0 period_s); [|lia].
    rewrite Hd. unfold StartUpdater; simpl.
    rewrite verbose_thread; simpl. eexists; split; [reflexivity|].
    now world.
  - intros w Hpc. unfold exec at 1; rewrite Hpc.
    eexists; split; [reflexivity|]. unfold PollForMetadata at 1 2.
    split; [reflexivity|]. split; [reflexivity|].
    intros rs. unfold exec, PollForMetadata; simpl.
    eexists; split; [reflexivity|]. split; reflexivity.
  - intros w called A B C Hpc. simpl. rewrite Hpc.
    eexists; split; [reflexivity|].
    unfold PollForMetadata; simpl. split; [reflexivity|].
    now rewrite <- !app_assoc.
  - intros w called A B C schedule w' Hpc Hall Hrun.
    pose proof (round_run w called [A; B; C] schedule w' Hpc Hall Hrun) as Hin.
    unfold in_round in Hin.
    replace (calls w ++ [CallQuery called [A; B; C];
                         CallUpdateResource A; CallUpdateMetadata A;
                         CallUpdateResource B; CallUpdateMetadata B;
                         CallUpdateResource C; CallUpdateMetadata C])
      with ((calls w ++ [CallQuery called [A; B; C]])
              ++ flat_map pair_calls [A; B; C])
      by (now rewrite <- app_assoc).
    destruct (reporter_thread_ w') as [pc|]; [|contradiction].
    destruct pc as [|called'|items|r rest|start wakeup|start wakeup|];
      try (split; [exists []; now rewrite app_nil_r | auto]).
    + destruct Hin as (done & -> & ->). split.
      * exists (flat_map pair_calls items).
        now rewrite flat_map_app, <- !app_assoc.
      * intros Hi _. now destruct (Hi items).
    + destruct Hin as (done & -> & ->). split.
      * exists (CallUpdateMetadata r :: flat_map pair_calls rest).
        rewrite flat_map_app; simpl. now rewrite <- !app_assoc.
      * intros _ Hc. now destruct (Hc r rest).
  - intros config name period_s clock w Hr.
    apply shape_prefix. now apply (shape_reachable config name period_s clock).
Qed.

(** C5.  For any updater, [Start] runs the hooks in this order.  (1) If
    [ValidateStaticConfiguration] fails, its error is thrown and the state
    is untouched.  (2) Otherwise, if [ShouldStartUpdater] is false, [Start]
    returns with one [INFO] line logged and nothing else done:
    [ValidateDynamicConfiguration] is not consulted (the equation holds
    whatever it answers).  (3) Otherwise, if [ValidateDynamicConfiguration]
    fails, its error is thrown and the state is untouched.  (4) Otherwise
    the result is [StartUpdater]'s.  For the polling updater: (5) after a
    skipped start there is still no thread and the timer is as before, and
    (6) on a constructed object with a positive period and a valid dynamic
    configuration, [Start] is [StartUpdater], which locks the timer and
    creates the thread, standing before its first query. *)
Theorem start_runs_the_hooks_in_order :
  (forall (W : Type) (H : MetadataUpdater.Hooks W) (w : W),
      (forall e,
          MetadataUpdater.ValidateStaticConfiguration w = Some e ->
          MetadataUpdater.Start w = Throws e w) /\
      (MetadataUpdater.ValidateStaticConfiguration w = None ->
       MetadataUpdater.ShouldStartUpdater w = false ->
       MetadataUpdater.Start w =
       Returns (MetadataUpdater.LOG INFO
                  ("Not starting " ++ MetadataUpdater.name w)%string w)) /\
      (forall e,
          MetadataUpdater.ValidateStaticConfiguration w = None ->
          MetadataUpdater.ShouldStartUpdater w = true ->
          MetadataUpdater.ValidateDynamicConfiguration w = Some e ->
          MetadataUpdater.Start w = Throws e w) /\
      (MetadataUpdater.ValidateStaticConfiguration w = None ->
       MetadataUpdater.ShouldStartUpdater w = true ->
       MetadataUpdater.ValidateDynamicConfiguration w = None ->
       MetadataUpdater.Start w = MetadataUpdater.StartUpdater w)) /\
  (forall w line,
      reporter_thread_ (LOG INFO line w) = reporter_thread_ w /\
      timer_ (LOG INFO line w) = timer_ w /\
      calls (LOG INFO line w) = calls w /\
      log (LOG INFO line w) = log w ++ [(INFO, line)]) /\
  (forall config name period_s clock,
      0 < period_s ->
      inherited_ValidateDynamicConfiguration config = None ->
      exists w',
        MetadataUpdater.Start (construct config name period_s clock) =
        Returns w' /\
        StartUpdater (construct config name period_s clock) = Returns w' /\
        timer_ w' = Locked /\
        reporter_thread_ w' = Some Querying /\
        calls w' = []).
Proof.
  refine (conj _ (conj _ _)).
  - intros W H w. unfold MetadataUpdater.Start. refine (conj _ (conj _ (conj _ _))).
    + now intros e ->.
    + now intros -> ->.
    + now intros e -> -> ->.
    + now intros -> -> ->.
  - intros w line. simpl. auto.
  - intros config name period_s clock Hp Hd.
    unfold MetadataUpdater.Start; simpl.
    unfold ValidateStaticConfiguration, ShouldStartUpdater; simpl.
    destruct (Z.ltb_spec period_s 0); [lia|].
    destruct (Z.ltb_spec 0 period_s); [|lia].
    rewrite Hd. unfold StartUpdater; simpl.
    rewrite verbose_thread; simpl. eexists; split; [reflexivity|].
    split; [reflexivity|]. now world.
Qed.

(** C6.  With a period of zero, [Start] returns normally, having only
    logged the notice of line 40; [ShouldStartUpdater] is false, and it is
    true exactly when the period is positive; from construction on there is
    never a thread and the query is never called. *)
Theorem zero_period_is_disabled :
  forall config name clock,
    MetadataUpdater.Start (construct config name 0 clock) =
    Returns (LOG INFO ("Not starting " ++ name)%string
                 (construct config name 0 clock)) /\
    ShouldStartUpdater (construct config name 0 clock) = false /\
    (forall w, ShouldStartUpdater w = true <-> 0 < period_ w) /\
    (forall w,
        reachable (construct config name 0 clock) w ->
        reporter_thread_ w = None /\ calls w = []).
Proof.
  intros config name clock. refine (conj _ (conj _ (conj _ _))).
  - reflexivity.
  - reflexivity.
  - intros w. unfold ShouldStartUpdater. apply Z.ltb_lt.
  - intros w Hr.
    destruct (idle_reachable config name 0 clock w) as (Ht & Hc & _);
      auto; lia.
Qed.

(** C7, as the code has it.  (1) [NotifyStop] is the stop hook.  (2) On a
    locked timer it returns at once with the timer released, whatever the
    reporter thread is doing, and changes neither that thread nor the call
    history; (3) it never blocks.  (4) A released timer of a started updater
    stays released through every transition but one: the reporter's
    [try_lock_until] takes it, which locks it again and ends the thread
    function. *)
Theorem notify_stop_releases_until_observed :
  (forall (W : Type) (H : MetadataUpdater.Hooks W) (w : W),
      MetadataUpdater.NotifyStop w = MetadataUpdater.NotifyStopUpdater w) /\
  (forall w,
      timer_ w = Locked ->
      exists w',
        MetadataUpdater.NotifyStop w = Returns w' /\
        timer_ w' = Unlocked /\
        reporter_thread_ w' = reporter_thread_ w /\
        calls w' = calls w /\ now w' = now w) /\
  (forall w, MetadataUpdater.NotifyStop w <> Blocks) /\
  (forall w e w',
      step w e w' ->
      timer_ w = Unlocked -> reporter_thread_ w <> None ->
      timer_ w' = Unlocked \/
      (e = ReporterStep /\ timer_ w' = Locked /\
       reporter_thread_ w' = Some Finished /\
       exists start wakeup,
         reporter_thread_ w = Some (Waiting start wakeup))).
Proof.
  refine (conj _ (conj _ (conj _ _))).
  - reflexivity.
  - intros w Ht. unfold MetadataUpdater.NotifyStop; simpl.
    unfold NotifyStopUpdater. rewrite Ht. eexists; split; [reflexivity|].
    now world.
  - intros w. unfold MetadataUpdater.NotifyStop; simpl.
    unfold NotifyStopUpdater. destruct (timer_ w); discriminate.
  - intros w e w' Hs Ht Hn. apply step_transition in Hs.
    destruct Hs; world; auto; try congruence.
    by_pc pc; unfold PollForMetadata; world; auto.
    + rewrite Ht; world. right. repeat split; eauto.
    + destruct (chrono_less (now w) wakeup); world; auto.
Qed.

(** C9.  (1) When the reporter's [try_lock_until] finds the timer released,
    it takes it: the thread function returns and the timer is locked.
    (2) Whenever a transition ends the thread function, the timer is locked
    after it.  (3) It stays locked, and the thread ended, until [NotifyStop]
    is called once more. *)
Theorem observing_the_stop_relocks_the_timer :
  (forall w start wakeup,
      reporter_thread_ w = Some (Waiting start wakeup) ->
      timer_ w = Unlocked ->
      exists w',
        exec w ReporterStep = Returns w' /\
        timer_ w' = Locked /\ reporter_thread_ w' = Some Finished) /\
  (forall w e w',
      step w e w' ->
      reporter_thread_ w' = Some Finished ->
      reporter_thread_ w <> Some Finished ->
      timer_ w = Unlocked /\ timer_ w' = Locked) /\
  (forall w e w',
      step w e w' ->
      reporter_thread_ w = Some Finished -> timer_ w = Locked ->
      e <> CallNotifyStop ->
      reporter_thread_ w' = Some Finished /\ timer_ w' = Locked).
Proof.
  refine (conj _ (conj _ _)).
  - intros w start wakeup Hpc Ht. unfold exec; rewrite Hpc.
    eexists; split; [reflexivity|]. unfold PollForMetadata. rewrite Ht.
    now world.
  - intros w e w' Hs Hf Hnf. apply step_transition in Hs.
    destruct (exit_step _ _ _ Hs Hf Hnf) as (_ & Hm & Hm' & _); auto.
  - intros w e w' Hs Hf Ht Hne. apply step_transition in Hs.
    destruct Hs; world; auto; congruence.
Qed.

(** C10.  A round whose query returns nothing.  (1) The query is recorded
    and the reporter passes the loop of lines 96-99 without a store
    callback; (2) it then reads the clock, sets the deadline one period
    later, as chrono computes it, and waits; (3) with the timer locked the
    wait goes on to the clock check, and (4) when that check finds the
    clock at the deadline the next round begins.  (5) Whatever the
    caller and the clock do, the history up to the return of the next query
    is the history before with that one query added; (6) and as long as
    [NotifyStop] is not called, the thread function does not return. *)
Theorem empty_result_round_goes_on :
  (forall w called,
      reporter_thread_ w = Some (InQuery called) ->
      exists w1,
        exec w (QueryReturns []) = Returns w1 /\
        reporter_thread_ w1 = Some (Iterating []) /\
        calls w1 = calls w ++ [CallQuery called []] /\
        store_calls (calls w1) = store_calls (calls w)) /\
  (forall w,
      reporter_thread_ w = Some (Iterating []) ->
      exists w2,
        exec w ReporterStep = Returns w2 /\
        reporter_thread_ w2 =
        Some (Waiting (now w) (chrono_plus (now w) (period_ w))) /\
        calls w2 = calls w) /\
  (forall w start wakeup,
      reporter_thread_ w = Some (Waiting start wakeup) -> timer_ w = Locked ->
      exists w3,
        exec w ReporterStep = Returns w3 /\
        reporter_thread_ w3 = Some (Woken start wakeup) /\
        calls w3 = calls w) /\
  (forall w start wakeup,
      reporter_thread_ w = Some (Woken start wakeup) ->
      chrono_less (now w) wakeup = false ->
      exists w4,
        exec w ReporterStep = Returns w4 /\
        reporter_thread_ w4 = Some Querying /\ calls w4 = calls w) /\
  (forall w called schedule w',
      reporter_thread_ w = Some (InQuery called) ->
      Forall no_query schedule ->
      run (QueryReturns [] :: schedule) w = Some w' ->
      calls w' = calls w ++ [CallQuery called []] /\
      store_calls (calls w') = store_calls (calls w)) /\
  (forall w called schedule w',
      reporter_thread_ w = Some (InQuery called) -> timer_ w = Locked ->
      Forall (fun e => e <> CallNotifyStop) schedule ->
      run (QueryReturns [] :: schedule) w = Some w' ->
      exists pc, reporter_thread_ w' = Some pc /\ pc <> Finished).
Proof.
  refine (conj _ (conj _ (conj _ (conj _ (conj _ _))))).
  - intros w called Hpc. unfold exec; rewrite Hpc.
    eexists; split; [reflexivity|].
    unfold PollForMetadata; simpl. repeat split.
    rewrite store_calls_app; simpl. now rewrite app_nil_r.
  - intros w Hpc. unfold exec; rewrite Hpc. eexists; split; [reflexivity|].
    unfold PollForMetadata; now world.
  - intros w start wakeup Hpc Ht. unfold exec; rewrite Hpc.
    eexists; split; [reflexivity|]. unfold PollForMetadata. rewrite Ht.
    now world.
  - intros w start wakeup Hpc Hle. unfold exec; rewrite Hpc.
    eexists; split; [reflexivity|]. unfold PollForMetadata.
    rewrite Hle. now world.
  - intros w called schedule w' Hpc Hall Hrun.
    pose proof (round_run w called [] schedule w' Hpc Hall Hrun) as Hin.
    unfold in_round in Hin.
    assert (Hc : calls w' = calls w ++ [CallQuery called []]).
    { destruct (reporter_thread_ w') as [pc|]; [|contradiction].
      destruct pc as [|called'|items|r rest|start wakeup|start wakeup|];
        simpl in Hin; try (now rewrite app_nil_r in Hin).
      - destruct Hin as (done & Hnil & ->).
        symmetry in Hnil. apply app_eq_nil in Hnil. destruct Hnil as [-> _].
        simpl. now rewrite app_nil_r.
      - destruct Hin as (done & Hnil & _).
        symmetry in Hnil. apply app_eq_nil in Hnil.
        destruct Hnil as [_ Hnil]. discriminate. }
    split; [exact Hc|]. rewrite Hc, store_calls_app; simpl.
    now rewrite app_nil_r.
  - intros w called schedule w' Hpc Ht Hall Hrun.
    simpl in Hrun. rewrite Hpc in Hrun.
    assert (Hp : polling (PollForMetadata (InQuery called) [] w)).
    { unfold polling, PollForMetadata; world. split; auto.
      eexists; split; eauto; congruence. }
    destruct (polling_run _ schedule w' Hp Hall Hrun) as (_ & pc & Hpc' & Hne).
    eauto.
Qed.

(** *** Further properties *)

Lemma same_run_state_poll pc answer w1 w2 :
  same_run_state w1 w2 ->
  same_run_state (PollForMetadata pc answer w1) (PollForMetadata pc answer w2).
Proof.
  intros (Hp & Ht & Hr & Hn & Hc). unfold same_run_state, PollForMetadata.
  destruct pc as [|called|[|r rest]|r rest|start wakeup|start wakeup|];
    world; rewrite ?Hp, ?Ht, ?Hr, ?Hn, ?Hc; auto.
  - destruct (timer_ w2) eqn:Ht2; world; repeat split; congruence.
  - destruct (chrono_less (now w2) wakeup) eqn:Hlt; world; repeat split; congruence.
Qed.

Lemma same_outcome_exec w1 w2 e :
  same_run_state w1 w2 ->
  inherited_ValidateDynamicConfiguration (config_ w1) =
  inherited_ValidateDynamicConfiguration (config_ w2) ->
  same_outcome (exec w1 e) (exec w2 e).
Proof.
  intros Hsame Hdyn. pose proof Hsame as (Hp & Ht & Hr & Hn & Hc).
  destruct e; unfold exec.
  - simpl. unfold same_run_state; simpl. rewrite Hn. auto.
  - simpl. unfold same_run_state; simpl. auto.
  - unfold MetadataUpdater.Start; simpl.
    unfold ValidateStaticConfiguration, ShouldStartUpdater. rewrite Hp.
    destruct (period_ w2 <? 0); [simpl; auto|].
    destruct (0 <? period_ w2).
    + rewrite Hdyn.
      destruct (inherited_ValidateDynamicConfiguration (config_ w2));
        [simpl; auto|].
      unfold StartUpdater. rewrite Ht. destruct (timer_ w2); [|exact I].
      rewrite !verbose_thread; simpl. rewrite Hr.
      destruct (reporter_thread_ w2); [exact I|].
      unfold same_outcome, same_run_state; world. auto.
    + unfold same_outcome, same_run_state; simpl. auto.
  - unfold MetadataUpdater.NotifyStop; simpl. unfold NotifyStopUpdater.
    rewrite Ht. destruct (timer_ w2); [exact I|].
    unfold same_outcome, same_run_state; world. auto.
  - rewrite Hr. destruct (reporter_thread_ w2) as [[]|]; try exact I.
    now apply same_run_state_poll.
  - rewrite Hr. destruct (reporter_thread_ w2) as [[]|]; try exact I;
      now apply same_run_state_poll.
Qed.

Lemma config_exec w e w' :
  step w e w' -> config_ w' = config_ w.
Proof.
  intros Hs. apply step_transition in Hs.
  now destruct (constants_step _ _ _ Hs).
Qed.

(** X1.  Neither the verbosity flag, nor the updater's name, nor what is
    already in the log has any effect on what the updater does.  Take two
    updaters with the same period, timer, thread, clock and history, whose
    configurations pass or fail dynamic validation alike.  Every single
    call or step ends the same way on both: it returns on both, to states
    that again agree, or throws the same error on both, or blocks on both,
    or aborts on both.  Along every schedule the calls end the same way one
    by one, with the same errors thrown, up to the same first call that
    blocks or aborts; and a schedule that runs to its end on one does so on
    the other, with the same calls made. *)
Theorem logging_does_not_steer :
  forall w1 w2,
    same_run_state w1 w2 ->
    inherited_ValidateDynamicConfiguration (config_ w1) =
    inherited_ValidateDynamicConfiguration (config_ w2) ->
    (forall e, same_outcome (exec w1 e) (exec w2 e)) /\
    (forall schedule, endings schedule w1 = endings schedule w2) /\
    (forall schedule, same_result (run schedule w1) (run schedule w2)).
Proof.
  intros w1 w2 Hsame Hdyn.
  split; [intros e; now apply same_outcome_exec|].
  assert (Hboth : forall schedule a b,
             same_run_state a b ->
             inherited_ValidateDynamicConfiguration (config_ a) =
             inherited_ValidateDynamicConfiguration (config_ b) ->
             endings schedule a = endings schedule b /\
             same_result (run schedule a) (run schedule b)).
  { induction schedule as [|e rest IH]; intros a b Hab Hd; simpl.
    - split; [reflexivity | exact Hab].
    - pose proof (same_outcome_exec a b e Hab Hd) as Ho.
      destruct (exec a e) as [a'|e1 a'| |] eqn:H1;
        destruct (exec b e) as [b'|e2 b'| |] eqn:H2;
        simpl in Ho; try contradiction; try (split; [reflexivity | exact I]).
      + destruct (IH a' b') as [He Hr]; [exact Ho | |].
        { rewrite (config_exec a e a'), (config_exec b e b');
            [exact Hd | now left | now left]. }
        split; [now rewrite He | exact Hr].
      + destruct Ho as [<- Ho].
        destruct (IH a' b') as [He Hr]; [exact Ho | |].
        { rewrite (config_exec a e a'), (config_exec b e b');
            [exact Hd | right; now exists e1 | right; now exists e1]. }
        split; [now rewrite He | exact Hr]. }
  split; intros schedule; now apply Hboth.
Qed.

Lemma log_verbose line w :
  log (verbose line w) = log w \/
  (VerboseLogging (config_ w) = true /\
   log (verbose line w) = log w ++ [(INFO, line)]).
Proof.
  unfold verbose. destruct (VerboseLogging (config_ w)); simpl; auto.
Qed.

Lemma log_set_thread t w : log (set_thread t w) = log w.
Proof. reflexivity. Qed.

Lemma log_set_timer m w : log (set_timer m w) = log w.
Proof. reflexivity. Qed.

Lemma log_record c w : log (record c w) = log w.
Proof. reflexivity. Qed.

Lemma verbose_adds line w :
  log (verbose line w) = log w \/
  exists line',
    log (verbose line w) = log w ++ [(INFO, line')] /\
    VerboseLogging (config_ w) = true.
Proof.
  destruct (log_verbose line w) as [H | [Hv H]]; [now left|].
  right. exists line. auto.
Qed.

(** A transition adds at most one line to the log, at severity [INFO]: a
    verbose line, or the notice of line 40. *)
Lemma log_step w e w' :
  transition w e w' ->
  log w' = log w \/
  exists line,
    log w' = log w ++ [(INFO, line)] /\
    (VerboseLogging (config_ w) = true \/
     (period_ w <= 0 /\ line = ("Not starting " ++ name_ w)%string)).
Proof.
  assert (Hv : forall line w0,
             config_ w0 = config_ w -> log w0 = log w ->
             log (verbose line w0) = log w \/
             exists line',
               log (verbose line w0) = log w ++ [(INFO, line')] /\
               (VerboseLogging (config_ w) = true \/
                (period_ w <= 0 /\
                 line' = ("Not starting " ++ name_ w)%string))).
  { intros line w0 Hc Hl.
    destruct (verbose_adds line w0) as [H | (line' & H & Hon)];
      rewrite H, Hl; [now left|].
    right. exists line'. split; [reflexivity|]. left. now rewrite <- Hc. }
  intros Ht; destruct Ht.
  - now left.
  - now left.
  - now left.
  - right. eexists; split; [reflexivity|]. right. auto.
  - rewrite log_set_thread. now apply Hv.
  - now apply Hv.
  - now left.
  - by_pc pc; unfold PollForMetadata; rewrite ?log_set_thread.
    + now left.
    + now apply Hv.
    + now left.
    + now left.
    + destruct (timer_ w); rewrite log_set_thread; [now apply Hv | now left].
    + destruct (chrono_less (now w) wakeup); rewrite log_set_thread;
        [now left | now apply Hv].
Qed.

(** X2.  Along every schedule from construction, every line the updater
    logs is at severity [INFO].  With verbose logging off, the only line it
    ever logs is the notice "Not starting <name>", and with a positive
    period it logs nothing at all. *)
Theorem log_holds_info_lines_only :
  forall config name period_s clock w,
    reachable (construct config name period_s clock) w ->
    only_info w /\
    (VerboseLogging config = false ->
     only_skip_notices w /\ (0 < period_s -> log w = [])).
Proof.
  intros config name period_s clock w [schedule Hrun].
  refine (proj2 (run_invariant
            (fun w =>
               (config_ w = config /\ name_ w = name /\ period_ w = period_s)
               /\ only_info w /\
               (VerboseLogging config = false ->
                only_skip_notices w /\ (0 < period_s -> log w = [])))
            _ schedule _ w _ Hrun)).
  - clear. intros w e w' ((Hc & Hn & Hp) & Hinfo & Hquiet) Ht.
    destruct (constants_step _ _ _ Ht) as (Hc' & Hn' & Hp').
    split; [repeat split; congruence|].
    unfold only_info, only_skip_notices in *. rewrite Hn'.
    destruct (log_step _ _ _ Ht) as [-> | (line & -> & Hwhy)].
    + split; [exact Hinfo | exact Hquiet].
    + split.
      * apply Forall_app; split; [exact Hinfo|]. now repeat constructor.
      * intros Hv. destruct (Hquiet Hv) as [Hskip Hnone].
        destruct Hwhy as [Hon | [Hle ->]]; [congruence|]. split.
        -- apply Forall_app; split; [exact Hskip|]. now repeat constructor.
        -- intros Hpos. lia.
  - simpl. repeat split; auto; constructor.
Qed.

(** X3.  [Start] takes effect at most once.  On an updater whose thread
    has been created, a further [Start] never returns: if dynamic validation
    fails it throws, with nothing changed; otherwise it blocks in
    [timer_.lock()] while the timer is locked (the reporter is polling, or
    has taken the timer on its way out), and with the timer released it
    reaches the assignment to the still joinable thread handle, which
    terminates the process. *)
Theorem start_takes_effect_once :
  forall config name period_s clock w pc,
    reachable (construct config name period_s clock) w ->
    reporter_thread_ w = Some pc ->
    (forall w', exec w CallStart <> Returns w') /\
    match inherited_ValidateDynamicConfiguration config with
    | Some e => exec w CallStart = Throws e w
    | None =>
        match timer_ w with
        | Locked => exec w CallStart = Blocks
        | Unlocked => exec w CallStart = Aborts
        end
    end.
Proof.
  intros config name period_s clock w pc Hr Hpc.
  destruct (constants_reachable _ _ Hr) as (Hc & _ & _); simpl in Hc.
  pose proof (deadlines_reachable _ _ _ _ _ Hr) as Ht.
  unfold deadlines in Ht. rewrite Hpc in Ht. destruct Ht as [Hpos _].
  unfold exec, MetadataUpdater.Start; simpl.
  unfold ValidateStaticConfiguration, ShouldStartUpdater.
  destruct (Z.ltb_spec (period_ w) 0); [lia|].
  destruct (Z.ltb_spec 0 (period_ w)); [|lia].
  rewrite Hc. destruct (inherited_ValidateDynamicConfiguration config).
  - split; [discriminate | reflexivity].
  - unfold StartUpdater. destruct (timer_ w).
    + rewrite verbose_thread; simpl. rewrite Hpc.
      split; [discriminate | reflexivity].
    + split; [discriminate | reflexivity].
Qed.

Lemma stopping_step n w e w' :
  stopping_within n w -> transition w e w' -> stopping_within n w'.
Proof.
  intros (q & Hq & Hm & Hn) Ht. unfold stopping_within.
  destruct Ht; world.
  - exists q; auto.
  - exists q; auto.
  - exists q; auto.
  - exists q; auto.
  - congruence.
  - exists q. repeat split; auto.
  - assert (q = InQuery called) by congruence; subst q.
    unfold PollForMetadata; world. eexists; split; [reflexivity|].
    split; [destruct Hm as [Hm|]; [now left | discriminate]|].
    rewrite query_times_app, length_app; simpl in *. lia.
  - assert (q = pc) by congruence; subst q.
    destruct Hm as [Hm | ->]; [|congruence].
    by_pc pc; unfold PollForMetadata; world;
      try (eexists; split; [reflexivity|]; split; [now left|];
           rewrite ?query_times_app, ?length_app; simpl in *; lia).
    + rewrite Hm; world. eexists; split; [reflexivity|].
      split; [now right | simpl in *; lia].
    + destruct (chrono_less (now w) wakeup); world;
        (eexists; split; [reflexivity|]; split; [now left|]; simpl in *; lia).
Qed.

Lemma stopping_run w pc schedule w' :
  reporter_thread_ w = Some pc -> timer_ w = Unlocked ->
  run schedule w = Some w' ->
  (List.length (query_times (calls w'))
   <= List.length (query_times (calls w)) + queries_left pc)%nat /\
  (timer_ w' = Unlocked \/ reporter_thread_ w' = Some Finished).
Proof.
  intros Hpc Hm Hrun.
  assert (Hw : stopping_within
                 (List.length (query_times (calls w)) + queries_left pc) w).
  { exists pc. repeat split; auto. }
  destruct (run_invariant _ (stopping_step _) schedule w w' Hw Hrun)
    as (pc' & Hpc' & Hm' & Hn').
  split; [lia|]. destruct Hm' as [Hm' | ->]; auto.
Qed.

(** X4.  A stop request is honoured within one round.  Once the timer is
    released, whatever the schedule, the reporter records at most one more
    query, and none if the release finds it between the return of a query
    and the return of the wait that follows; the timer stays released until
    the thread function has returned. *)
Theorem stop_is_honoured_within_one_round :
  forall w pc schedule w',
    reporter_thread_ w = Some pc -> timer_ w = Unlocked ->
    run schedule w = Some w' ->
    (List.length (query_times (calls w'))
     <= List.length (query_times (calls w)) + queries_left pc)%nat /\
    (timer_ w' = Unlocked \/ reporter_thread_ w' = Some Finished).
Proof. exact stopping_run. Qed.

Lemma polled_step w e w' : polled w -> transition w e w' -> polled w'.
Proof.
  unfold polled. intros Hp Ht; destruct Ht; world; auto.
  - unfold PollForMetadata; world. rewrite query_times_app; simpl.
    now destruct (query_times (calls w)).
  - rewrite H in Hp.
    by_pc pc; unfold PollForMetadata; world; auto;
      try (rewrite query_times_app, app_nil_r; exact Hp).
    + destruct (timer_ w); world; auto.
    + destruct (chrono_less (now w) wakeup); world; auto.
Qed.


Lemma queried_app l m : queried (l ++ m) = queried l ++ queried m.
Proof.
  induction l as [|[] l IH]; simpl; auto. now rewrite IH, app_assoc.
Qed.

Lemma pair_calls_store rs :
  store_calls (flat_map pair_calls rs) = flat_map pair_calls rs /\
  queried (flat_map pair_calls rs) = [].
Proof.
  induction rs as [|r rs [IHs IHq]]; simpl; auto. now rewrite IHs, IHq.
Qed.

Lemma rounds_delivered h :
  store_calls (rounds h) = flat_map pair_calls (queried (rounds h)).
Proof.
  induction h as [|[t rs] h IH]; [reflexivity|].
  change (rounds ((t, rs) :: h))
    with ((CallQuery t rs :: flat_map pair_calls rs) ++ rounds h).
  rewrite store_calls_app, queried_app; simpl.
  destruct (pair_calls_store rs) as [-> ->].
  rewrite app_nil_r, flat_map_app. now rewrite IH.
Qed.

(** X6.  No element of a query result is lost or delivered out of order.
    Along every schedule from construction, whenever the reporter is not
    inside the loop of lines 96-99 (in particular once its thread function
    has returned after a stop), the store callbacks made so far are exactly
    the resource-update and the metadata-update of every element of every
    query result, in the order queried: a stop request never cuts a round
    short. *)
Theorem every_result_is_delivered :
  forall config name period_s clock w,
    reachable (construct config name period_s clock) w ->
    outside_loop w ->
    store_calls (calls w) = flat_map pair_calls (queried (calls w)).
Proof.
  intros config name period_s clock w Hr Hout.
  destruct (shape_reachable _ _ _ _ _ Hr) as [h Hh].
  unfold outside_loop in Hout.
  destruct (reporter_thread_ w) as [pc|]; [|now rewrite Hh].
  destruct pc; try contradiction; rewrite Hh; apply rounds_delivered.
Qed.

(** X7.  A disabled or rejected updater (period zero or negative) stays
    inert along every schedule: its destructor returns at once and changes
    nothing, there is no reporter step to take, and [NotifyStop] is never a
    defined call on it, because [Start] has not locked the timer that
    [NotifyStop] unlocks. *)
Theorem disabled_updater_is_inert :
  forall config name period_s clock w,
    period_s <= 0 ->
    reachable (construct config name period_s clock) w ->
    Destructor w = Returns w /\
    exec w CallNotifyStop = Aborts /\
    exec w ReporterStep = Blocks /\
    (forall result, exec w (QueryReturns result) = Blocks) /\
    (forall w', exec w CallStart = Returns w' ->
                period_s = 0 /\
                w' = LOG INFO ("Not starting " ++ name)%string w).
Proof.
  intros config name period_s clock w Hle Hr.
  destruct (idle_reachable _ _ _ _ _ Hle Hr) as (Ht & Hc & Hm).
  destruct (constants_reachable _ _ Hr) as (_ & Hn & Hp); simpl in Hn, Hp.
  unfold Destructor, exec, MetadataUpdater.NotifyStop, MetadataUpdater.Start;
    simpl.
  unfold NotifyStopUpdater, ValidateStaticConfiguration, ShouldStartUpdater.
  rewrite Ht, Hm, Hp, Hn. repeat split; auto.
  - destruct (Z.ltb_spec period_s 0); [discriminate|].
    destruct (Z.ltb_spec 0 period_s); lia.
  - destruct (Z.ltb_spec period_s 0); [discriminate|].
    destruct (Z.ltb_spec 0 period_s); [lia|]. congruence.
Qed.

End Polling.

Arguments Querying {ResourceMetadata}.
Arguments InQuery {ResourceMetadata} called.
Arguments Iterating {ResourceMetadata} items.
Arguments Consuming {ResourceMetadata} result rest.
Arguments Waiting {ResourceMetadata} start wakeup.
Arguments Woken {ResourceMetadata} start wakeup.
Arguments Finished {ResourceMetadata}.
Arguments CallQuery {ResourceMetadata} at_time result.
Arguments CallUpdateResource {ResourceMetadata} r.
Arguments CallUpdateMetadata {ResourceMetadata} r.
Arguments Elapse {ResourceMetadata} ticks.
Arguments ClockSet {ResourceMetadata} reading.
Arguments CallStart {ResourceMetadata}.
Arguments CallNotifyStop {ResourceMetadata}.
Arguments QueryReturns {ResourceMetadata} result.
Arguments ReporterStep {ResourceMetadata}.
Arguments timer_ {ResourceMetadata} w.
Arguments reporter_thread_ {ResourceMetadata} w.
Arguments now {ResourceMetadata} w.
Arguments calls {ResourceMetadata} w.
Arguments log {ResourceMetadata} w.
Arguments period_ {ResourceMetadata} w.
Arguments query_times {ResourceMetadata} cs.
Arguments store_calls {ResourceMetadata} cs.
Arguments Destructor {ResourceMetadata} w.

(** *** The claims on a concrete updater *)

Local Open Scope string_scope.

(** The payloads are numbers. *)
Abbreviation example_run :=
  (run nat format_Substitute format_str format_str Z.add Z.ltb always_valid).

Abbreviation example_exec :=
  (exec nat format_Substitute format_str format_str Z.add Z.ltb always_valid).

Example started_by_Start :
  example_exec (docker nat 5) CallStart = Returns (started nat).
Proof. reflexivity. Qed.

Example two_rounds_calls :
  option_map calls (example_run (two_rounds nat 7%nat) (docker nat 5)) =
  Some [CallQuery 100 [7%nat]; CallUpdateResource 7%nat;
        CallUpdateMetadata 7%nat; CallQuery 107 []].
Proof. reflexivity. Qed.

Example message_of_minus_three :
  format_Substitute "Polling period {{period}}s cannot be negative"
                    [("period", format_str (-3))] =
  "Polling period -3s cannot be negative".
Proof. reflexivity. Qed.

(** Whole ticks and a period counted in ticks: the arithmetic is exact. *)
Lemma exact_integer_chrono : exact_chrono Z.add Z.ltb.
Proof. intros start reading period H. now apply Z.ltb_ge in H. Qed.



Lemma negative_period_is_rejected_witness :
  -3 < 0 /\
  example_exec (docker nat (-3)) CallStart =
  Throws {| what := "Polling period -3s cannot be negative" |}
         (docker nat (-3)).
Proof.
  split; [lia|].
  destruct (negative_period_is_rejected
              nat format_Substitute format_str format_str Z.add Z.ltb
              always_valid
              {| VerboseLogging := true |} "docker" (-3) 100) as (Hthrows & _);
    [lia|].
  exact (Hthrows (docker nat (-3)) eq_refl).
Defined.

Lemma zero_period_is_disabled_witness :
  exists w,
    example_exec (docker nat 0) CallStart = Returns w /\
    log w = [(INFO, "Not starting docker")] /\
    reporter_thread_ w = None /\ calls w = [].
Proof.
  destruct (zero_period_is_disabled
              nat format_Substitute format_str format_str Z.add Z.ltb
              always_valid
              {| VerboseLogging := true |} "docker" 100) as (Hstart & _).
  eexists. split; [exact Hstart|]. repeat split.
Defined.

Lemma start_runs_the_hooks_in_order_witness :
  exists w,
    example_exec (docker nat 5) CallStart = Returns w /\
    timer_ w = Locked /\ reporter_thread_ w = Some Querying /\ calls w = [].
Proof.
  destruct (start_runs_the_hooks_in_order
              nat format_Substitute format_str always_valid)
    as (_ & _ & Hruns).
  destruct (Hruns {| VerboseLogging := true |} "docker" 5 100)
    as (w & Hstart & _ & Hw); [lia | reflexivity |].
  exists w. split; [exact Hstart | exact Hw].
Defined.

(** C3, counterexample.  A started updater on which [NotifyStop] was not
    called: its destructor blocks with the timer still locked, and that
    remains so along every schedule without a [NotifyStop].  The destructor
    does not request the stop, and does not return. *)
Lemma destructor_does_not_request_stop :
  timer_ (started nat) = Locked /\
  Destructor (started nat) = Blocks /\
  (forall schedule w',
      Forall (fun e => e <> CallNotifyStop) schedule ->
      example_run schedule (started nat) = Some w' ->
      timer_ w' = Locked /\ Destructor w' = Blocks).
Proof.
  split; [reflexivity|]. split; [reflexivity|].
  intros schedule w' Hall Hrun.
  assert (Hp : polling nat (started nat)).
  { split; [reflexivity|]. exists Querying. split; [reflexivity | discriminate]. }
  destruct (polling_run _ _ _ _ _ _ _ _ _ _ Hp Hall Hrun) as (Ht & pc & Hpc & Hne).
  split; [exact Ht|]. unfold Destructor. rewrite Hpc.
  destruct pc; congruence.
Qed.

Lemma destructor_joins_after_stop_witness :
  exists w,
    example_run [ReporterStep; QueryReturns [7%nat]; CallNotifyStop;
                 ReporterStep; ReporterStep; ReporterStep; ReporterStep]
                (started nat) = Some w /\
    calls w = [CallQuery 100 [7%nat]; CallUpdateResource 7%nat;
               CallUpdateMetadata 7%nat] /\
    Destructor w = Returns (set_thread nat None w).
Proof.
  destruct (destructor_joins_after_stop
              nat format_Substitute format_str format_str Z.add Z.ltb
              always_valid)
    as (_ & _ & Hjoin & _).
  eexists. split; [vm_compute; reflexivity|]. split; [reflexivity|].
  apply Hjoin. reflexivity.
Defined.

(** C7, counterexample.  The timer released by [NotifyStop] during a wait
    is locked again after the reporter's next step. *)
Lemma released_timer_is_locked_again :
  exists w1 w2,
    example_run [ReporterStep; QueryReturns []; ReporterStep; CallNotifyStop]
                (started nat) = Some w1 /\
    timer_ w1 = Unlocked /\
    example_exec w1 ReporterStep = Returns w2 /\
    timer_ w2 = Locked.
Proof.
  eexists; eexists. split; [vm_compute; reflexivity|]. split; [reflexivity|].
  split; reflexivity.
Qed.

Lemma notify_stop_releases_until_observed_witness :
  exists w,
    example_exec (started nat) CallNotifyStop = Returns w /\
    timer_ w = Unlocked /\ reporter_thread_ w = Some Querying.
Proof.
  destruct (notify_stop_releases_until_observed
              nat format_Substitute format_str format_str Z.add Z.ltb
              always_valid)
    as (_ & Hstop & _).
  destruct (Hstop (started nat) eq_refl) as (w & Hw & Ht & Hr & _).
  exists w. split; [exact Hw|]. split; [exact Ht | exact Hr].
Defined.

Lemma observing_the_stop_relocks_the_timer_witness :
  exists w,
    example_exec (stopping nat) ReporterStep = Returns w /\
    timer_ w = Locked /\ reporter_thread_ w = Some Finished.
Proof.
  destruct (observing_the_stop_relocks_the_timer
              nat format_Substitute format_str format_str Z.add Z.ltb
              always_valid)
    as (Hobserve & _).
  exact (Hobserve (stopping nat) 100 105 eq_refl eq_refl).
Defined.

Lemma store_sees_each_round_in_order_witness :
  exists w,
    example_run [ReporterStep; QueryReturns [1; 2; 3]%nat;
                 ReporterStep; ReporterStep; ReporterStep;
                 ReporterStep; ReporterStep; ReporterStep]
                (started nat) = Some w /\
    calls w = [CallQuery 100 [1; 2; 3]%nat;
               CallUpdateResource 1%nat; CallUpdateMetadata 1%nat;
               CallUpdateResource 2%nat; CallUpdateMetadata 2%nat;
               CallUpdateResource 3%nat; CallUpdateMetadata 3%nat].
Proof.
  destruct (store_sees_each_round_in_order
              nat format_Substitute format_str format_str Z.add Z.ltb
              always_valid)
    as (_ & _ & Hround & _).
  destruct (Hround (set_thread nat (Some (InQuery 100)) (started nat))
                   100 1%nat 2%nat 3%nat eq_refl) as (w & Hrun & _ & Hc).
  exists w. split; [exact Hrun | exact Hc].
Defined.

Lemma empty_result_round_goes_on_witness :
  exists w,
    example_run [ReporterStep; QueryReturns []; ReporterStep; ReporterStep;
                 Elapse 5; ReporterStep] (started nat) = Some w /\
    reporter_thread_ w = Some Querying /\
    calls w = [CallQuery 100 []] /\
    store_calls (calls w) = [].
Proof.
  destruct (empty_result_round_goes_on
              nat format_Substitute format_str format_str Z.add Z.ltb
              always_valid)
    as (_ & _ & _ & _ & Hquiet & _).
  eexists. split; [vm_compute; reflexivity|]. split; [reflexivity|].
  apply (Hquiet (set_thread nat (Some (InQuery 100)) (started nat)) 100
                [ReporterStep; ReporterStep; Elapse 5; ReporterStep]);
    [reflexivity | repeat constructor | vm_compute; reflexivity].
Defined.

(** *** The further properties on a concrete updater *)

(** The updater of the examples with verbose logging off and another name. *)
Lemma logging_does_not_steer_witness :
  let quiet := construct nat {| VerboseLogging := false |} "kubernetes" 5 100 in
  let schedule := (two_rounds nat 7%nat ++ [CallStart])%list in
  endings nat format_Substitute format_str format_str Z.add Z.ltb always_valid
          schedule (docker nat 5) =
  endings nat format_Substitute format_str format_str Z.add Z.ltb always_valid
          schedule quiet /\
  same_result nat (example_run (two_rounds nat 7%nat) (docker nat 5))
                  (example_run (two_rounds nat 7%nat) quiet) /\
  option_map log (example_run (two_rounds nat 7%nat) (docker nat 5)) <>
  option_map log (example_run (two_rounds nat 7%nat) quiet).
Proof.
  intros quiet schedule.
  destruct (logging_does_not_steer
              nat format_Substitute format_str format_str Z.add Z.ltb
              always_valid (docker nat 5) quiet) as (_ & Hends & Hruns);
    [repeat split | reflexivity |].
  split; [exact (Hends schedule)|].
  split; [exact (Hruns (two_rounds nat 7%nat))|].
  vm_compute. discriminate.
Defined.

Lemma log_holds_info_lines_only_witness :
  exists w1 w2,
    example_run (two_rounds nat 7%nat) (docker nat 5) = Some w1 /\
    example_run (two_rounds nat 7%nat)
                (construct nat {| VerboseLogging := false |} "docker" 5 100)
    = Some w2 /\
    only_info nat w1 /\ log w1 <> [] /\ log w2 = [].
Proof.
  eexists; eexists. split; [vm_compute; reflexivity|].
  split; [vm_compute; reflexivity|]. split; [|split].
  - apply (log_holds_info_lines_only
             nat format_Substitute format_str format_str Z.add Z.ltb
             always_valid
             {| VerboseLogging := true |} "docker" 5 100).
    exists (two_rounds nat 7%nat). vm_compute. reflexivity.
  - discriminate.
  - apply (log_holds_info_lines_only
             nat format_Substitute format_str format_str Z.add Z.ltb
             always_valid
             {| VerboseLogging := false |} "docker" 5 100);
      [exists (two_rounds nat 7%nat); vm_compute; reflexivity
      | reflexivity | lia].
Defined.

Lemma start_takes_effect_once_witness :
  example_exec (started nat) CallStart = Blocks /\
  exists w,
    example_run [CallStart; CallNotifyStop] (docker nat 5) = Some w /\
    example_exec w CallStart = Aborts.
Proof.
  split.
  - refine (proj2 (start_takes_effect_once
                     nat format_Substitute format_str format_str Z.add Z.ltb
                     always_valid
                     {| VerboseLogging := true |} "docker" 5 100
                     (started nat) Querying _ eq_refl)).
    exists [CallStart]. reflexivity.
  - eexists. split; [vm_compute; reflexivity|].
    match goal with
    | |- exec _ _ _ _ _ _ _ ?w _ = _ =>
        refine (proj2 (start_takes_effect_once
                         nat format_Substitute format_str format_str Z.add Z.ltb
                         always_valid {| VerboseLogging := true |}
                         "docker" 5 100 w Querying _ eq_refl))
    end.
    exists [CallStart; CallNotifyStop]. vm_compute. reflexivity.
Defined.

Lemma stop_is_honoured_within_one_round_witness :
  exists w,
    example_run [Elapse 9; ReporterStep; Elapse 50] (stopping nat) = Some w /\
    (List.length (query_times (calls w)) <= 1)%nat.
Proof.
  eexists. split; [vm_compute; reflexivity|].
  refine (proj1 (stop_is_honoured_within_one_round
                   nat format_Substitute format_str format_str Z.add Z.ltb
                   always_valid
                   (stopping nat) (Waiting 100 105)
                   [Elapse 9; ReporterStep; Elapse 50] _
                   eq_refl eq_refl _)).
  vm_compute. reflexivity.
Defined.


Lemma every_result_is_delivered_witness :
  exists w,
    example_run (two_rounds nat 7%nat ++ [ReporterStep]) (docker nat 5)
    = Some w /\
    store_calls (calls w) = [CallUpdateResource 7%nat; CallUpdateMetadata 7%nat].
Proof.
  eexists. split; [vm_compute; reflexivity|].
  match goal with
  | |- store_calls (calls ?w) = _ =>
      refine (every_result_is_delivered
                nat format_Substitute format_str format_str Z.add Z.ltb
                always_valid
                {| VerboseLogging := true |} "docker" 5 100 w _ I)
  end.
  exists (two_rounds nat 7%nat ++ [ReporterStep])%list. vm_compute. reflexivity.
Defined.

Lemma disabled_updater_is_inert_witness :
  exists w,
    example_run [CallStart; Elapse 3] (docker nat 0) = Some w /\
    Destructor w = Returns w /\
    example_exec w CallNotifyStop = Aborts /\
    example_exec w ReporterStep = Blocks.
Proof.
  eexists. split; [vm_compute; reflexivity|].
  destruct (disabled_updater_is_inert
              nat format_Substitute format_str format_str Z.add Z.ltb
              always_valid
              {| VerboseLogging := true |} "docker" 0 100
              (LOG nat INFO "Not starting docker"
                   (set_now nat 103 (docker nat 0))))
    as (Hd & Hn & Hr & _); [lia | exists [CallStart; Elapse 3]; vm_compute; reflexivity |].
  split; [exact Hd|]. split; [exact Hn | exact Hr].
Defined.

End PollingMetadataUpdater.

(** ** Facts about [LogStream] *)

Module LogStreamFacts.

Import Logging.

Local Open Scope nat_scope.
Local Open Scope string_scope.

Lemma append_assoc (a b c : string) : (a ++ b) ++ c = a ++ (b ++ c).
Proof. induction a as [|x a IH]; simpl; [reflexivity | now rewrite IH]. Qed.

Lemma append_nil_r (a : string) : a ++ "" = a.
Proof. induction a as [|x a IH]; simpl; [reflexivity | now rewrite IH]. Qed.

Lemma text_snoc lines line :
  text (lines ++ [line])%list = text lines ++ line ++ newline.
Proof.
  induction lines as [|l lines IH]; [reflexivity|].
  change (text ((l :: lines) ++ [line])%list)
    with (l ++ newline ++ text (lines ++ [line])%list).
  change (text (l :: lines)) with (l ++ newline ++ text lines).
  now rewrite IH, !append_assoc.
Qed.

Lemma text_app l1 l2 : text (l1 ++ l2)%list = text l1 ++ text l2.
Proof.
  induction l1 as [|l l1 IH]; [reflexivity|].
  change (text ((l :: l1) ++ l2)%list) with (l ++ newline ++ text (l1 ++ l2)%list).
  change (text (l :: l1)) with (l ++ newline ++ text l1).
  now rewrite IH, !append_assoc.
Qed.

Lemma assign_same a o m : assign a o m a = o.
Proof. unfold assign. now rewrite Nat.eqb_refl. Qed.

Lemma assign_other a b o m : b <> a -> assign a o m b = m b.
Proof. unfold assign. intros H. apply Nat.eqb_neq in H. now rewrite H. Qed.

(** *** One stream *)

Lemma output_flush o : output (flush o) = output o.
Proof.
  unfold output, flush. destruct (failed o); simpl;
    [reflexivity | apply append_nil_r].
Qed.

Lemma insert_failed s o : failed o = true -> insert s o = o.
Proof. intros H. unfold insert. now rewrite H. Qed.

Lemma flush_failed o : failed o = true -> flush o = o.
Proof. intros H. unfold flush. now rewrite H. Qed.

Lemma endl_failed o : failed o = true -> endl o = o.
Proof.
  intros H. unfold endl, unformatted. rewrite H. now apply flush_failed.
Qed.

Lemma field_plain s o : width o = 0 -> field s o = s.
Proof.
  intros H. unfold field. rewrite H. simpl.
  destruct (left_adjust o); [apply append_nil_r | reflexivity].
Qed.

(** On a good stream that takes every character: the field, whatever the
    width. *)
Lemma insert_good s o :
  failed o = false -> room o = None ->
  insert s o =
  mkStream (target o) (buffer o ++ field s o) false 0 (fill o)
           (left_adjust o) None.
Proof.
  intros Hf Hr. unfold insert, sputn. rewrite Hf, Hr. reflexivity.
Qed.

Lemma endl_good o :
  failed o = false -> room o = None ->
  endl o =
  mkStream (target o ++ buffer o ++ newline) "" false (width o) (fill o)
           (left_adjust o) None.
Proof.
  intros Hf Hr. unfold endl, unformatted, sputn, flush.
  rewrite Hf, Hr. simpl. now rewrite ?append_assoc.
Qed.

Lemma output_insert s o : healthy o -> output (insert s o) = output o ++ s.
Proof.
  intros (Hf & Hw & Hr). rewrite (insert_good s o Hf Hr), (field_plain s o Hw).
  unfold output; simpl. symmetry; apply append_assoc.
Qed.

Lemma healthy_insert s o : healthy o -> healthy (insert s o).
Proof.
  intros (Hf & Hw & Hr). rewrite (insert_good s o Hf Hr). now repeat split.
Qed.

Lemma output_endl o : healthy o -> output (endl o) = output o ++ newline.
Proof.
  intros (Hf & Hw & Hr). rewrite (endl_good o Hf Hr).
  unfold output; simpl. now rewrite append_nil_r, append_assoc.
Qed.

Lemma healthy_endl o : healthy o -> healthy (endl o).
Proof.
  intros (Hf & Hw & Hr). rewrite (endl_good o Hf Hr). now repeat split.
Qed.

Lemma buffer_endl o : healthy o -> buffer (endl o) = "".
Proof. intros (Hf & Hw & Hr). now rewrite (endl_good o Hf Hr). Qed.

(** *** The sink *)

Lemma put_line_target line s a :
  a = out_ s ->
  memory (put_line line s) a = endl (insert line (memory s a)).
Proof.
  intros ->. unfold put_line, put_endl, put; simpl. now rewrite !assign_same.
Qed.

Lemma put_line_elsewhere line s a :
  a <> out_ s -> memory (put_line line s) a = memory s a.
Proof.
  intros Ha. unfold put_line, put_endl, put; simpl.
  now rewrite !assign_other.
Qed.

Lemma write_returns line s :
  mutex_ s = false ->
  write line s =
  Returns (unlock (put_line line (mkLogStream true (out_ s) (memory s)))).
Proof. intros H. unfold write, lock. now rewrite H. Qed.

(** What [write] leaves in a stream: the line and its newline in the
    target, nothing elsewhere. *)
Lemma written_memory line s a :
  memory (unlock (put_line line (mkLogStream true (out_ s) (memory s)))) a =
  if Nat.eqb a (out_ s) then endl (insert line (memory s a)) else memory s a.
Proof.
  change (memory
            (unlock (put_line line (mkLogStream true (out_ s) (memory s)))) a)
    with (memory (put_line line (mkLogStream true (out_ s) (memory s))) a).
  destruct (Nat.eqb a (out_ s)) eqn:Ha.
  - apply Nat.eqb_eq in Ha.
    exact (put_line_target line (mkLogStream true (out_ s) (memory s)) a Ha).
  - apply Nat.eqb_neq in Ha.
    exact (put_line_elsewhere line (mkLogStream true (out_ s) (memory s)) a Ha).
Qed.

(** After [set_stream], later lines leave every stream but the new target
    as [set_stream] left it. *)
Lemma write_all_elsewhere lines :
  forall s s' a,
    write_all lines s = Returns s' -> a <> out_ s ->
    out_ s' = out_ s /\ mutex_ s' = mutex_ s /\ memory s' a = memory s a.
Proof.
  induction lines as [|line rest IH]; intros s s' a Hw Ha; simpl in Hw.
  - now inversion Hw; subst.
  - destruct (mutex_ s) eqn:Hm.
    + unfold write, lock in Hw. rewrite Hm in Hw. discriminate.
    + rewrite (write_returns line s Hm) in Hw.
      destruct (IH _ s' a Hw) as (Ho & Hmx & Hmem); [exact Ha|].
      rewrite Ho, Hmx, Hmem. repeat split.
      rewrite written_memory. apply Nat.eqb_neq in Ha. now rewrite Ha.
Qed.

(** *** Several threads *)

Lemma moved_same t to s c : writers (move t to s c) t = to.
Proof. simpl. now rewrite Nat.eqb_refl. Qed.

Lemma moved_other t to s c u : u <> t -> writers (move t to s c) u = writers c u.
Proof. simpl. intros H. apply Nat.eqb_neq in H. now rewrite H. Qed.

(** The one thread inside is the one that moves. *)
Lemma the_one_inside c t t0 :
  inside (writers c t) = true ->
  (forall u, u <> t0 -> inside (writers c u) = false) ->
  t = t0.
Proof.
  intros Ht Hothers. destruct (Nat.eq_dec t t0) as [|Hne]; [assumption|].
  rewrite (Hothers t Hne) in Ht. discriminate.
Qed.

(** No step of a writer changes where the sink points, and a healthy target
    stays healthy. *)
Lemma healthy_act out c a c' :
  out_ (sink c) = out -> healthy (memory (sink c) out) ->
  act c a = Returns c' ->
  out_ (sink c') = out /\ healthy (memory (sink c') out).
Proof.
  intros Hout Hh Hact. destruct a as [t line | t]; simpl in Hact.
  - destruct (writers c t); [discriminate|].
    inversion Hact; subst c'. auto.
  - destruct (writers c t) as [[line|line|line|]|]; try discriminate.
    + unfold lock in Hact. destruct (mutex_ (sink c)); [discriminate|].
      inversion Hact; subst c'. auto.
    + inversion Hact; subst c'. split; [exact Hout|].
      simpl. rewrite Hout, assign_same. now apply healthy_insert.
    + inversion Hact; subst c'. split; [exact Hout|].
      simpl. rewrite Hout, assign_same. now apply healthy_endl.
    + inversion Hact; subst c'. auto.
Qed.

Lemma whole_lines_act out base c a c' :
  healthy (memory (sink c) out) ->
  whole_lines out base c -> act c a = Returns c' -> whole_lines out base c'.
Proof.
  intros Hh (Hout & lines & Hcase) Hact.
  destruct a as [t line | t]; simpl in Hact.
  - (* a call *)
    destruct (writers c t) eqn:Hw; [discriminate|].
    inversion Hact; subst c'; clear Hact.
    split; [exact Hout|]. exists lines.
    destruct Hcase as [(Hm & Hnone & Ho) | (Hm & t0 & Hin & Hothers & Ho)].
    + left. repeat split; auto. intros u.
      destruct (Nat.eq_dec u t) as [->|Hne];
        [now rewrite moved_same | now rewrite moved_other].
    + right. split; [exact Hm|]. exists t0.
      assert (Hne : t0 <> t) by (intros ->; rewrite Hw in Hin; discriminate).
      rewrite (moved_other t _ _ c t0 Hne). repeat split; auto.
      intros u Hu. destruct (Nat.eq_dec u t) as [->|Hne'];
        [now rewrite moved_same | rewrite moved_other; auto].
  - (* a step *)
    destruct (writers c t) as [[line|line|line|]|] eqn:Hw; try discriminate.
    + (* the lock *)
      unfold lock in Hact. destruct (mutex_ (sink c)) eqn:Hm; [discriminate|].
      inversion Hact; subst c'; clear Hact.
      destruct Hcase as [(_ & Hnone & Ho) | (Hm' & _)]; [|congruence].
      split; [exact Hout|]. exists lines. right. split; [reflexivity|].
      exists t. rewrite moved_same. repeat split.
      * intros u Hu. rewrite moved_other; auto.
      * simpl. now rewrite append_nil_r.
    + (* the line *)
      inversion Hact; subst c'; clear Hact.
      destruct Hcase as [(_ & Hnone & _) | (Hm & t0 & Hin & Hothers & Ho)].
      { specialize (Hnone t). rewrite Hw in Hnone. discriminate. }
      assert (t = t0) by (apply (the_one_inside c); [now rewrite Hw | auto]).
      subst t0. split; [exact Hout|]. exists lines. right.
      split; [exact Hm|]. exists t. rewrite moved_same. repeat split.
      * intros u Hu. rewrite moved_other; auto.
      * simpl. rewrite Hout, assign_same, (output_insert _ _ Hh), Ho, Hw.
        simpl. now rewrite append_nil_r, append_assoc.
    + (* the newline *)
      inversion Hact; subst c'; clear Hact.
      destruct Hcase as [(_ & Hnone & _) | (Hm & t0 & Hin & Hothers & Ho)].
      { specialize (Hnone t). rewrite Hw in Hnone. discriminate. }
      assert (t = t0) by (apply (the_one_inside c); [now rewrite Hw | auto]).
      subst t0. split; [exact Hout|]. exists (lines ++ [line])%list. right.
      split; [exact Hm|]. exists t. rewrite moved_same. repeat split.
      * intros u Hu. rewrite moved_other; auto.
      * simpl. rewrite Hout, assign_same, (output_endl _ Hh), Ho, Hw. simpl.
        now rewrite text_snoc, append_nil_r, !append_assoc.
    + (* the unlock *)
      inversion Hact; subst c'; clear Hact.
      destruct Hcase as [(_ & Hnone & _) | (Hm & t0 & Hin & Hothers & Ho)].
      { specialize (Hnone t). rewrite Hw in Hnone. discriminate. }
      assert (t = t0) by (apply (the_one_inside c); [now rewrite Hw | auto]).
      subst t0. split; [exact Hout|]. exists lines. left. repeat split.
      * intros u. destruct (Nat.eq_dec u t) as [->|Hne];
          [now rewrite moved_same | rewrite moved_other; auto].
      * simpl. rewrite Ho, Hw. simpl. now rewrite append_nil_r.
Qed.

Lemma whole_lines_perform out base schedule :
  forall c c',
    healthy (memory (sink c) out) ->
    whole_lines out base c -> perform schedule c = Some c' ->
    healthy (memory (sink c') out) /\ whole_lines out base c'.
Proof.
  induction schedule as [|a rest IH]; intros c c' Hh Hc Hp; simpl in Hp.
  - inversion Hp; subst. auto.
  - destruct (act c a) as [c1| | |] eqn:Ha; try discriminate.
    apply (IH c1); [| |exact Hp].
    + exact (proj2 (healthy_act out c a c1 (proj1 Hc) Hh Ha)).
    + now apply (whole_lines_act out base c a).
Qed.




(** Two threads call [write] at once.  Thread 2 takes the lock first;
    thread 1 cannot take it until thread 2 has released it, and the two
    lines come out whole. *)
Example two_writers :
  let start :=
    mkShared (construct 0 (fun _ => fresh_stream)) (fun _ => None) in
  (exists c,
      perform [Call 1 "a"; Call 2 "b"; Step 2; Step 2] start = Some c /\
      act c (Step 1) = Blocks) /\
  option_map (fun c => output (memory (sink c) 0))
             (perform [Call 1 "a"; Call 2 "b"; Step 2; Step 2; Step 2; Step 2;
                       Step 1; Step 1; Step 1; Step 1] start)
  = Some ("b" ++ newline ++ "a" ++ newline).
Proof.
  intros start. split; [|reflexivity].
  eexists. split; [vm_compute; reflexivity | reflexivity].
Qed.

(** *** Further properties *)

Lemma healthy_flush o : healthy o -> healthy (flush o).
Proof. intros (Hf & Hw & Hr). unfold flush. rewrite Hf. now repeat split. Qed.

Lemma execute_all_output cs :
  forall s,
    mutex_ s = false -> (forall a, healthy (memory s a)) ->
    exists s',
      execute_all cs s = Returns s' /\
      mutex_ s' = false /\
      out_ s' = final_target (out_ s) cs /\
      (forall a, healthy (memory s' a)) /\
      forall a,
        output (memory s' a) =
        output (memory s a) ++ text (written a (out_ s) cs).
Proof.
  induction cs as [|[line|out] rest IH]; intros s Hm Hh.
  - exists s. split; [reflexivity|]. split; [exact Hm|].
    split; [reflexivity|]. split; [exact Hh|].
    intros a. simpl. now rewrite append_nil_r.
  - simpl execute_all. rewrite (write_returns line s Hm).
    set (s1 := unlock (put_line line (mkLogStream true (out_ s) (memory s)))).
    assert (Hh1 : forall a, healthy (memory s1 a)).
    { intros a. unfold s1. rewrite written_memory.
      destruct (Nat.eqb a (out_ s)); [|apply Hh].
      apply healthy_endl, healthy_insert, Hh. }
    destruct (IH s1 eq_refl Hh1) as (s' & He & Hm' & Ho & Hh' & Hout).
    exists s'. split; [exact He|]. split; [exact Hm'|]. split; [exact Ho|].
    split; [exact Hh'|].
    intros a. rewrite Hout.
    change (out_ s1) with (out_ s). unfold s1. rewrite written_memory.
    simpl written. destruct (Nat.eqb a (out_ s)); [|reflexivity].
    rewrite (output_endl _ (healthy_insert line _ (Hh a))),
      (output_insert _ _ (Hh a)).
    change (text (line :: written a (out_ s) rest))
      with (line ++ newline ++ text (written a (out_ s) rest)).
    now rewrite !append_assoc.
  - simpl execute_all.
    assert (Hh1 : forall a, healthy (memory (set_stream out s) a)).
    { intros a. simpl. destruct (Nat.eq_dec a (out_ s)) as [->|Ha].
      - rewrite assign_same. apply healthy_flush, Hh.
      - rewrite assign_other by exact Ha. apply Hh. }
    destruct (IH (set_stream out s) Hm Hh1) as (s' & He & Hm' & Ho & Hh' & Hout).
    exists s'. split; [exact He|]. split; [exact Hm'|]. split; [exact Ho|].
    split; [exact Hh'|].
    intros a. rewrite Hout. simpl written.
    change (out_ (set_stream out s)) with out.
    change (memory (set_stream out s) a)
      with (assign (out_ s) (flush (memory s (out_ s))) (memory s) a).
    destruct (Nat.eq_dec a (out_ s)) as [->|Ha].
    + now rewrite assign_same, output_flush.
    + now rewrite assign_other.
Qed.

Lemma in_flight_cons c u rest :
  in_flight c (u :: rest) = (unfinished (writers c u) ++ in_flight c rest)%list.
Proof. reflexivity. Qed.

Lemma in_flight_elsewhere t to s c threads :
  ~ In t threads -> in_flight (move t to s c) threads = in_flight c threads.
Proof.
  induction threads as [|u rest IH]; intros Hn; [reflexivity|].
  rewrite !in_flight_cons.
  rewrite moved_other by (intros ->; apply Hn; now left).
  rewrite IH; [reflexivity|]. intros Hin. apply Hn. now right.
Qed.

Lemma in_flight_moved t to s c threads :
  NoDup threads -> In t threads ->
  Permutation
    (unfinished (writers c t) ++ in_flight (move t to s c) threads)%list
    (unfinished to ++ in_flight c threads)%list.
Proof.
  induction threads as [|u rest IH]; intros Hnd Hin; [destruct Hin|].
  inversion Hnd as [|? ? Hu Hrest]; subst.
  rewrite !in_flight_cons.
  destruct (Nat.eq_dec u t) as [->|Hne].
  - rewrite moved_same, in_flight_elsewhere by assumption.
    apply Permutation_app_swap_app.
  - destruct Hin as [->|Hin]; [congruence|].
    rewrite moved_other by assumption.
    etransitivity; [apply Permutation_app_swap_app|].
    etransitivity; [apply Permutation_app_head, IH; assumption|].
    apply Permutation_app_swap_app.
Qed.

(** The threads that have called, after thread [t] has moved. *)
Lemma threads_after_move t to s c threads :
  NoDup threads ->
  (forall u, ~ In u threads -> writers c u = None) ->
  exists threads',
    NoDup threads' /\
    (forall u, ~ In u threads' -> writers (move t to s c) u = None) /\
    Permutation
      (unfinished (writers c t) ++ in_flight (move t to s c) threads')%list
      (unfinished to ++ in_flight c threads)%list.
Proof.
  intros Hnd Hrest. destruct (in_dec Nat.eq_dec t threads) as [Hin|Hout].
  - exists threads. split; [exact Hnd|]. split.
    + intros u Hu. rewrite moved_other by (intros ->; contradiction). auto.
    + now apply in_flight_moved.
  - exists (t :: threads). split; [now constructor|]. split.
    + intros u Hu. rewrite moved_other by (intros ->; apply Hu; now left).
      apply Hrest. intros Hin. apply Hu. now right.
    + rewrite (Hrest t Hout), in_flight_cons, moved_same,
        in_flight_elsewhere by assumption.
      reflexivity.
Qed.

Lemma accounted_act out base so_far c a c' :
  healthy (memory (sink c) out) ->
  accounted out base so_far c -> act c a = Returns c' ->
  accounted out base (so_far ++ called [a])%list c'.
Proof.
  intros Hh (threads & lines & Hnd & Hrest & Hperm & Hout & Hcase) Hact.
  destruct a as [t line | t]; simpl in Hact.
  - (* a call *)
    destruct (writers c t) eqn:Hw; [discriminate|].
    inversion Hact; subst c'; clear Hact.
    destruct (threads_after_move t (Some (Entering line)) (sink c) c threads
                Hnd Hrest) as (threads' & Hnd' & Hrest' & Hmoved).
    rewrite Hw in Hmoved.
    exists threads', lines. split; [exact Hnd'|]. split; [exact Hrest'|]. split.
    { etransitivity; [apply Permutation_app_head; exact Hmoved|].
      change (called [Call t line]) with [line].
      etransitivity; [symmetry; apply Permutation_middle|].
      etransitivity; [apply perm_skip; exact Hperm|].
      apply Permutation_cons_append. }
    split; [exact Hout|].
    destruct Hcase as [(Hm & Hnone & Ho) | (Hm & t0 & Hin & Hothers & Ho)].
    + left. repeat split; auto. intros u.
      destruct (Nat.eq_dec u t) as [->|Hne];
        [now rewrite moved_same | now rewrite moved_other].
    + right. split; [exact Hm|]. exists t0.
      assert (Hne : t0 <> t) by (intros ->; rewrite Hw in Hin; discriminate).
      rewrite (moved_other t _ _ c t0 Hne). repeat split; auto.
      intros u Hu. destruct (Nat.eq_dec u t) as [->|Hne'];
        [now rewrite moved_same | rewrite moved_other; auto].
  - (* a step *)
    change (called [Step t]) with (@nil string). rewrite app_nil_r.
    destruct (writers c t) as [[line|line|line|]|] eqn:Hw; try discriminate.
    + (* the lock *)
      unfold lock in Hact. destruct (mutex_ (sink c)) eqn:Hm; [discriminate|].
      inversion Hact; subst c'; clear Hact.
      destruct (threads_after_move t (Some (Holding line))
                  (mkLogStream true (out_ (sink c)) (memory (sink c))) c threads
                  Hnd Hrest) as (threads' & Hnd' & Hrest' & Hmoved).
      rewrite Hw in Hmoved. apply Permutation_cons_inv in Hmoved.
      exists threads', lines. split; [exact Hnd'|]. split; [exact Hrest'|]. split.
      { etransitivity; [apply Permutation_app_head; exact Hmoved | exact Hperm]. }
      split; [exact Hout|].
      destruct Hcase as [(_ & Hnone & Ho) | (Hm' & _)]; [|congruence].
      right. split; [reflexivity|].
      exists t. rewrite moved_same. repeat split.
      * intros u Hu. rewrite moved_other; auto.
      * simpl. now rewrite append_nil_r.
    + (* the line *)
      inversion Hact; subst c'; clear Hact.
      destruct (threads_after_move t (Some (Ending line)) (put line (sink c)) c
                  threads Hnd Hrest) as (threads' & Hnd' & Hrest' & Hmoved).
      rewrite Hw in Hmoved. apply Permutation_cons_inv in Hmoved.
      exists threads', lines. split; [exact Hnd'|]. split; [exact Hrest'|]. split.
      { etransitivity; [apply Permutation_app_head; exact Hmoved | exact Hperm]. }
      split; [exact Hout|].
      destruct Hcase as [(_ & Hnone & _) | (Hm & t0 & Hin & Hothers & Ho)].
      { specialize (Hnone t). rewrite Hw in Hnone. discriminate. }
      assert (t = t0) by (apply (the_one_inside c); [now rewrite Hw | auto]).
      subst t0. right.
      split; [exact Hm|]. exists t. rewrite moved_same. repeat split.
      * intros u Hu. rewrite moved_other; auto.
      * simpl. rewrite Hout, assign_same, (output_insert _ _ Hh), Ho, Hw.
        simpl. now rewrite append_nil_r, append_assoc.
    + (* the newline *)
      inversion Hact; subst c'; clear Hact.
      destruct (threads_after_move t (Some Leaving) (put_endl (sink c)) c
                  threads Hnd Hrest) as (threads' & Hnd' & Hrest' & Hmoved).
      rewrite Hw in Hmoved.
      exists threads', (lines ++ [line])%list.
      split; [exact Hnd'|]. split; [exact Hrest'|]. split.
      { rewrite <- app_assoc.
        etransitivity; [apply Permutation_app_head; exact Hmoved | exact Hperm]. }
      split; [exact Hout|].
      destruct Hcase as [(_ & Hnone & _) | (Hm & t0 & Hin & Hothers & Ho)].
      { specialize (Hnone t). rewrite Hw in Hnone. discriminate. }
      assert (t = t0) by (apply (the_one_inside c); [now rewrite Hw | auto]).
      subst t0. right.
      split; [exact Hm|]. exists t. rewrite moved_same. repeat split.
      * intros u Hu. rewrite moved_other; auto.
      * simpl. rewrite Hout, assign_same, (output_endl _ Hh), Ho, Hw. simpl.
        now rewrite text_snoc, append_nil_r, !append_assoc.
    + (* the unlock *)
      inversion Hact; subst c'; clear Hact.
      destruct (threads_after_move t None (unlock (sink c)) c
                  threads Hnd Hrest) as (threads' & Hnd' & Hrest' & Hmoved).
      rewrite Hw in Hmoved.
      exists threads', lines. split; [exact Hnd'|]. split; [exact Hrest'|]. split.
      { etransitivity; [apply Permutation_app_head; exact Hmoved | exact Hperm]. }
      split; [exact Hout|].
      destruct Hcase as [(_ & Hnone & _) | (Hm & t0 & Hin & Hothers & Ho)].
      { specialize (Hnone t). rewrite Hw in Hnone. discriminate. }
      assert (t = t0) by (apply (the_one_inside c); [now rewrite Hw | auto]).
      subst t0. left. repeat split.
      * intros u. destruct (Nat.eq_dec u t) as [->|Hne];
          [now rewrite moved_same | rewrite moved_other; auto].
      * simpl. rewrite Ho, Hw. simpl. now rewrite append_nil_r.
Qed.

Lemma called_app s1 s2 : called (s1 ++ s2)%list = (called s1 ++ called s2)%list.
Proof.
  induction s1 as [|[t line|t] s1 IH]; simpl; [reflexivity | now rewrite IH | exact IH].
Qed.

Lemma accounted_perform out base schedule :
  forall so_far c c',
    healthy (memory (sink c) out) ->
    accounted out base so_far c -> perform schedule c = Some c' ->
    accounted out base (so_far ++ called schedule)%list c'.
Proof.
  induction schedule as [|a rest IH]; intros so_far c c' Hh Hc Hp; simpl in Hp.
  - inversion Hp; subst. simpl. now rewrite app_nil_r.
  - destruct (act c a) as [c1| | |] eqn:Ha; try discriminate.
    change (a :: rest) with ([a] ++ rest)%list.
    rewrite called_app, app_assoc.
    pose proof Hc as (_ & _ & _ & _ & _ & Hout & _).
    apply (IH _ c1); [| |exact Hp].
    + exact (proj2 (healthy_act out c a c1 Hout Hh Ha)).
    + now apply (accounted_act out base so_far c a).
Qed.

Lemma in_flight_none c threads :
  (forall t, writers c t = None) -> in_flight c threads = [].
Proof.
  intros Hnone. induction threads as [|u rest IH]; [reflexivity|].
  now rewrite in_flight_cons, Hnone, IH.
Qed.

(** X8.  A thread calls [write] and [set_stream] one after the other on a
    sink whose mutex is free, all streams being healthy (good, no field
    width set, taking every character).  It is never blocked.  Afterwards
    the mutex is free, the sink points where the last [set_stream] pointed
    it, the streams are healthy as before, and every stream holds what it
    held before, then exactly the lines written while the sink pointed to
    it, in order, each followed by one newline: retargeting loses no line
    and moves none to another stream. *)
Theorem retargeting_keeps_every_line :
  forall cs s,
    mutex_ s = false -> (forall a, healthy (memory s a)) ->
    exists s',
      execute_all cs s = Returns s' /\
      mutex_ s' = false /\
      out_ s' = final_target (out_ s) cs /\
      (forall a, healthy (memory s' a)) /\
      forall a,
        output (memory s' a) =
        output (memory s a) ++ text (written a (out_ s) cs).
Proof. exact execute_all_output. Qed.

Lemma retargeting_keeps_every_line_witness :
  exists s',
    execute_all [Write "a"; SetStream 1; Write "b"; SetStream 0; Write "c"]
                (construct 0 (fun _ => fresh_stream)) = Returns s' /\
    out_ s' = 0 /\
    output (memory s' 0) = "a" ++ newline ++ "c" ++ newline /\
    output (memory s' 1) = "b" ++ newline.
Proof.
  destruct (retargeting_keeps_every_line
              [Write "a"; SetStream 1; Write "b"; SetStream 0; Write "c"]
              (construct 0 (fun _ => fresh_stream)) eq_refl)
    as (s' & He & _ & Ho & _ & Hout).
  { intros a. now repeat split. }
  exists s'. split; [exact He|]. split; [exact Ho|].
  split; [exact (Hout 0) | exact (Hout 1)].
Defined.

(** X9.  Threads call [write] any number of times on a healthy target, in
    any interleaving of their steps.  At any moment the lines called so far
    are, counted with their multiplicity, the whole lines of the target and
    the lines of the calls still under way.  So once every thread has left
    [write], the mutex is free and the target holds what it held at the
    start followed by a rearrangement of all the lines called, each with its
    newline: no line is lost and none is written twice. *)
Theorem concurrent_writes_lose_no_line :
  forall out m schedule c,
    healthy (m out) ->
    perform schedule (mkShared (construct out m) (fun _ => None)) = Some c ->
    accounted out (output (m out)) (called schedule) c /\
    ((forall t, writers c t = None) ->
     mutex_ (sink c) = false /\
     exists lines,
       Permutation lines (called schedule) /\
       output (memory (sink c) out) = output (m out) ++ text lines).
Proof.
  intros out m schedule c Hh Hp.
  assert (Hacc : accounted out (output (m out)) (called schedule) c).
  { change (called schedule) with ([] ++ called schedule)%list.
    refine (accounted_perform out _ schedule []
              (mkShared (construct out m) (fun _ => None)) c Hh _ Hp).
    exists [], []. split; [constructor|]. split; [reflexivity|].
    split; [constructor|]. split; [reflexivity|].
    left. simpl. repeat split. now rewrite append_nil_r. }
  split; [exact Hacc|]. intros Hnone.
  destruct Hacc as (threads & lines & _ & _ & Hperm & _ & Hcase).
  rewrite (in_flight_none c threads Hnone), app_nil_r in Hperm.
  destruct Hcase as [(Hm & _ & Ho) | (_ & t & Hin & _)].
  - split; [exact Hm|]. exists lines. split; assumption.
  - rewrite Hnone in Hin. discriminate.
Qed.

Lemma concurrent_writes_lose_no_line_witness :
  let start :=
    mkShared (construct 0 (fun _ => fresh_stream)) (fun _ => None) in
  let schedule := [Call 1 "a"; Call 2 "b"; Step 2; Step 2; Step 2; Step 2;
                   Call 2 "c"; Step 1; Step 1; Step 1; Step 1;
                   Step 2; Step 2; Step 2; Step 2] in
  exists c,
    perform schedule start = Some c /\
    exists lines,
      Permutation lines ["a"; "b"; "c"] /\
      output (memory (sink c) 0) = text lines.
Proof.
  intros start schedule.
  pose (c := match perform schedule start with Some c => c | None => start end).
  assert (Hp : perform schedule start = Some c) by (vm_compute; reflexivity).
  assert (Hnone : forall t, writers c t = None).
  { intros t. vm_compute. destruct t as [|[|[|t]]]; reflexivity. }
  exists c. split; [exact Hp|].
  destruct (concurrent_writes_lose_no_line 0 (fun _ => fresh_stream)
                                           schedule c) as (_ & Hall);
    [now repeat split | exact Hp |].
  destruct (Hall Hnone) as (_ & lines & Hperm & Ho).
  exists lines. split; [exact Hperm | exact Ho].
Defined.

End LogStreamFacts.
